(** * img-upgr: the update resolution engine and the change workflow

    A shallow embedding of the Go sources of img-upgr
    (pkg/update/checker.go, pkg/docker, pkg/config, pkg/validation and the
    scan and check commands) together with the properties stated about them.

    Go strings are byte sequences: they are modelled by [string], whose
    characters are the bytes.  The two regular expressions of checker.go are
    matched bytewise, which agrees with Go's rune-wise matching because every
    byte the patterns name (':', '.', the digits, the newline) is ASCII and an
    ASCII byte always starts a rune. *)

From Stdlib Require Import String Ascii List Bool Arith NArith ZArith Lia.
From Stdlib Require Import Decimal DecimalString DecimalN.
From Stdlib Require Import Permutation Sorted.
Import ListNotations.

Local Open Scope string_scope.
Local Open Scope list_scope.

(* ================================================================== *)
(** ** The parts of Go's [strings], [strconv] and [fmt] the code uses  *)
(* ================================================================== *)

Module GoStrings.

(** The newline byte, which the regexp metacharacter [.] does not match. *)
Definition newline : ascii := "010"%char.

(** The one-byte text of a line feed. *)
Definition nl : string := String newline EmptyString.

(** [strings.HasPrefix]. *)
Fixpoint HasPrefix (s p : string) : bool :=
  match p, s with
  | EmptyString, _ => true
  | String _ _, EmptyString => false
  | String b p', String a s' => Ascii.eqb a b && HasPrefix s' p'
  end.

(** Dropping the first [n] bytes: the slice [s[n:]]. *)
Fixpoint drop (n : nat) (s : string) : string :=
  match n, s with
  | O, _ => s
  | S _, EmptyString => EmptyString
  | S k, String _ s' => drop k s'
  end.

(** [strings.TrimPrefix]: [s] without the leading [p], or [s] itself when
    [p] is not a prefix. *)
Definition TrimPrefix (s p : string) : string :=
  if HasPrefix s p then drop (String.length p) s else s.

(** The longest leading run of bytes satisfying [f], and the rest. *)
Fixpoint span (f : ascii -> bool) (s : string) : string * string :=
  match s with
  | EmptyString => (EmptyString, EmptyString)
  | String a s' =>
      if f a then let (l, r) := span f s' in (String a l, r)
      else (EmptyString, s)
  end.

Fixpoint forallb (f : ascii -> bool) (s : string) : bool :=
  match s with
  | EmptyString => true
  | String a s' => f a && forallb f s'
  end.

Definition nonempty_string (s : string) : Prop :=
  match s with EmptyString => False | String _ _ => True end.

Definition contains_byte (c : ascii) (s : string) : bool :=
  negb (forallb (fun a => negb (Ascii.eqb a c)) s).

(** [strings.Index(s, sep)] for a one-byte separator: the index of the
    first occurrence, [None] standing for Go's -1. *)
Fixpoint IndexByte (s : string) (c : ascii) : option nat :=
  match s with
  | EmptyString => None
  | String a s' =>
      if Ascii.eqb a c then Some O
      else option_map S (IndexByte s' c)
  end.

(** The slice [s[:n]]. *)
Fixpoint take (n : nat) (s : string) : string :=
  match n, s with
  | O, _ => EmptyString
  | S _, EmptyString => EmptyString
  | S k, String a s' => String a (take k s')
  end.

(** [strings.Split(s, sep)] for a one-byte separator.  The result is never
    empty: a string without the separator gives the one-element list. *)
Fixpoint Split (s : string) (c : ascii) : list string :=
  match s with
  | EmptyString => [EmptyString]
  | String a s' =>
      if Ascii.eqb a c then EmptyString :: Split s' c
      else match Split s' c with
           | [] => [String a EmptyString]
           | x :: xs => String a x :: xs
           end
  end.

(** [strings.Join]. *)
Fixpoint Join (l : list string) (sep : string) : string :=
  match l with
  | [] => EmptyString
  | [x] => x
  | x :: xs => x ++ sep ++ Join xs sep
  end.

(** The replacement of the occurrences of a non-empty [old]: the
    non-overlapping occurrences are replaced from the left.  [skip] counts
    the bytes of an occurrence still to be dropped. *)
Fixpoint replaceFrom (old new : string) (skip : nat) (s : string) : string :=
  match s with
  | EmptyString => EmptyString
  | String a s' =>
      match skip with
      | S k => replaceFrom old new k s'
      | O =>
          if HasPrefix s old
          then new ++ replaceFrom old new (String.length old - 1) s'
          else String a (replaceFrom old new O s')
      end
  end.

Definition inRange (lo hi : N) (a : ascii) : bool :=
  let b := N_of_ascii a in (lo <=? b)%N && (b <=? hi)%N.

(** The size returned by [utf8.DecodeRuneInString]: the number of bytes of
    the UTF-8 sequence at the start of [s].  A byte that does not start a
    well-formed sequence counts as a sequence of one byte; the bounds on
    the second byte exclude the overlong forms, the surrogates and what
    lies beyond U+10FFFF. *)
Definition runeWidth (s : string) : nat :=
  match s with
  | EmptyString => 0
  | String s0 rest =>
      let b := N_of_ascii s0 in
      if (b <? 194)%N || (244 <? b)%N then 1
      else
        let sz := if (b <? 224)%N then 2
                  else if (b <? 240)%N then 3 else 4 in
        let lo := if (b =? 224)%N then 160%N
                  else if (b =? 240)%N then 144%N else 128%N in
        let hi := if (b =? 237)%N then 159%N
                  else if (b =? 244)%N then 143%N else 191%N in
        if (String.length s <? sz)%nat then 1
        else
          match rest with
          | EmptyString => 1
          | String s1 rest1 =>
              if negb (inRange lo hi s1) then 1
              else if (sz <=? 2)%nat then 2
              else
                match rest1 with
                | EmptyString => 1
                | String s2 rest2 =>
                    if negb (inRange 128 191 s2) then 1
                    else if (sz <=? 3)%nat then 3
                    else
                      match rest2 with
                      | EmptyString => 1
                      | String s3 _ =>
                          if negb (inRange 128 191 s3) then 1 else 4
                      end
                end
          end
  end.

(** The replacement of an empty [old], which matches after every UTF-8
    sequence: each sequence is copied and followed by [new].  [rem] counts
    the bytes of the current sequence still to be copied, 0 at the start
    of a sequence. *)
Fixpoint insertFrom (new : string) (rem : nat) (s : string) : string :=
  match s with
  | EmptyString => EmptyString
  | String a s' =>
      let rem := match rem with O => runeWidth s | _ => rem end in
      match rem with
      | S (S k) => String a (insertFrom new (S k) s')
      | _ => String a (new ++ insertFrom new O s')
      end
  end.

(** [strings.ReplaceAll(s, old, new)], which is
    [strings.Replace(s, old, new, -1)].  An empty [old] also matches at
    the beginning of the string.  (Go returns [s] at once when [old] and
    [new] are equal, which is what both branches give then.) *)
Definition ReplaceAll (s old new : string) : string :=
  match old with
  | EmptyString => new ++ insertFrom new O s
  | String _ _ => replaceFrom old new O s
  end.

(** [strings.Contains]. *)
Fixpoint Contains (s sub : string) : bool :=
  HasPrefix s sub ||
  match s with
  | EmptyString => false
  | String _ s' => Contains s' sub
  end.

Definition isDigit (a : ascii) : bool :=
  let n := nat_of_ascii a in (48 <=? n)%nat && (n <=? 57)%nat.

(** The verb [%d] of [fmt] on a non-negative integer. *)
Definition FormatUint (n : N) : string :=
  NilZero.string_of_uint (N.to_uint n).

(** The verb [%d] of [fmt] on an [int]. *)
Definition FormatInt (z : Z) : string :=
  if (z <? 0)%Z then "-" ++ FormatUint (Z.to_N (Z.opp z))
  else FormatUint (Z.to_N z).

(** The largest value of a [uint64]. *)
Definition MaxUint64 : N := 18446744073709551615%N.

(** [strconv.ParseUint(s, 10, 64)]: a non-empty run of decimal digits whose
    value fits 64 bits; [None] stands for a non-nil error. *)
Definition ParseUint (s : string) : option N :=
  match s with
  | EmptyString => None
  | _ =>
      if forallb isDigit s then
        match NilEmpty.uint_of_string s with
        | Some d =>
            let n := N.of_uint d in
            if (n <=? MaxUint64)%N then Some n else None
        | None => None
        end
      else None
  end.

End GoStrings.

(* ================================================================== *)
(** ** github.com/Masterminds/semver/v3, as far as checker.go uses it  *)
(* ================================================================== *)

(** The module is a third-party dependency of the program.  What follows
    models its documented behaviour: [NewVersion] is the coercing parser
    (an optional leading 'v', one to three numeric components, an optional
    pre-release after '-' and optional build metadata after '+'), [String]
    prints the canonical form, and [Compare] orders by major, minor, patch
    and then pre-release.  The releases of the module differ in one point,
    whether a numeric component may carry leading zeros; the package
    variable [CoerceNewVersion] (true by default) selects it. *)

Module semver.
Import GoStrings.

Record Version : Type := {
  major : N;
  minor : N;
  patch : N;
  pre : string;
  metadata : string;
  original : string
}.

Definition isAlpha (a : ascii) : bool :=
  let n := nat_of_ascii a in
  ((65 <=? n)%nat && (n <=? 90)%nat) || ((97 <=? n)%nat && (n <=? 122)%nat).

(** The class [[0-9A-Za-z\-]] of pre-release and metadata identifiers. *)
Definition identChar (a : ascii) : bool :=
  isDigit a || isAlpha a || Ascii.eqb a "-".

Definition nonEmpty (s : string) : bool :=
  match s with EmptyString => false | _ => true end.

(** [[0-9A-Za-z\-]+(\.[0-9A-Za-z\-]+)*] against a whole string. *)
Definition validIdents (s : string) : bool :=
  List.forallb (fun p => nonEmpty p && forallb identChar p) (Split s ".").

(** A numeric string with a leading zero, as [0|[1-9]\d*] excludes it. *)
Definition leadingZero (d : string) : bool :=
  match d with
  | String "0" (String _ _) => true
  | _ => false
  end.

(** [validatePrerelease]: a numeric identifier must not start with '0'. *)
Definition validatePrerelease (p : string) : bool :=
  List.forallb (fun part => negb (forallb isDigit part && leadingZero part))
               (Split p ".").

(** One optional group [(\.[0-9]+)?] of the version pattern: the digits
    matched (empty when the group does not take part) and the rest.  A '.'
    that no digit follows cannot be matched by anything after it. *)
Definition optSegment (r : string) : option (string * string) :=
  match r with
  | String "." r' =>
      let (d, r'') := span isDigit r' in
      if nonEmpty d then Some (d, r'') else None
  | _ => Some (EmptyString, r)
  end.

(** The tail [(-pre)?(\+metadata)?$] of the version pattern. *)
Definition parseTail (r : string) : option (string * string) :=
  match r with
  | EmptyString => Some (EmptyString, EmptyString)
  | String "-" t =>
      let (p, r') := span (fun a => negb (Ascii.eqb a "+")) t in
      if validIdents p then
        match r' with
        | EmptyString => Some (p, EmptyString)
        | String _ m => if validIdents m then Some (p, m) else None
        end
      else None
  | String "+" m => if validIdents m then Some (EmptyString, m) else None
  | _ => None
  end.

Definition parseSegment (d : string) : option N :=
  match d with
  | EmptyString => Some 0%N
  | _ => ParseUint d
  end.

(** [NewVersion]; [None] stands for a non-nil error. *)
Definition NewVersion (CoerceNewVersion : bool) (v : string) : option Version :=
  let s := match v with String "v" s' => s' | _ => v end in
  let (maj, r1) := span isDigit s in
  if negb (nonEmpty maj) then None else
  match optSegment r1 with
  | None => None
  | Some (mi, r2) =>
    match (if nonEmpty mi then optSegment r2 else Some (EmptyString, r2)) with
    | None => None
    | Some (pa, r3) =>
      match parseTail r3 with
      | None => None
      | Some (p, m) =>
        if negb CoerceNewVersion
           && (leadingZero maj || leadingZero mi || leadingZero pa)
        then None
        else
          match ParseUint maj, parseSegment mi, parseSegment pa with
          | Some a, Some b, Some c =>
              if validatePrerelease p
              then Some {| major := a; minor := b; patch := c;
                           pre := p; metadata := m; original := v |}
              else None
          | _, _, _ => None
          end
      end
    end
  end.

(** [Version.String]. *)
Definition String_ (v : Version) : string :=
  FormatUint (major v) ++ "." ++ FormatUint (minor v) ++ "."
    ++ FormatUint (patch v)
    ++ (if nonEmpty (pre v) then "-" ++ pre v else EmptyString)
    ++ (if nonEmpty (metadata v) then "+" ++ metadata v else EmptyString).

Definition compareSegment (v o : N) : Z :=
  if (v <? o)%N then (-1)%Z else if (o <? v)%N then 1%Z else 0%Z.

(** [comparePrePart]. *)
Definition comparePrePart (s o : string) : Z :=
  if String.eqb s o then 0%Z
  else if negb (nonEmpty s) then (if nonEmpty o then (-1)%Z else 1%Z)
  else if negb (nonEmpty o) then 1%Z
  else
    match ParseUint o, ParseUint s with
    | None, None =>
        match String.compare s o with Gt => 1%Z | _ => (-1)%Z end
    | None, Some _ => (-1)%Z
    | Some _, None => 1%Z
    | Some oi, Some si => if (si <? oi)%N then (-1)%Z else 1%Z
    end.

(** The loop of [comparePrerelease]: [i] is the index, [n] the number of
    iterations left; a missing part reads as the empty string. *)
Fixpoint comparePreLoop (sparts oparts : list string) (i n : nat) : Z :=
  match n with
  | O => 0%Z
  | S n' =>
      let d := comparePrePart (nth i sparts EmptyString)
                              (nth i oparts EmptyString) in
      if (d =? 0)%Z then comparePreLoop sparts oparts (S i) n' else d
  end.

Definition comparePrerelease (v o : string) : Z :=
  let sparts := Split v "." in
  let oparts := Split o "." in
  comparePreLoop sparts oparts O
                 (Nat.max (List.length sparts) (List.length oparts)).

(** [Version.Compare]. *)
Definition Compare (v o : Version) : Z :=
  let d := compareSegment (major v) (major o) in
  if negb (d =? 0)%Z then d else
  let d := compareSegment (minor v) (minor o) in
  if negb (d =? 0)%Z then d else
  let d := compareSegment (patch v) (patch o) in
  if negb (d =? 0)%Z then d else
  let ps := pre v in
  let po := pre o in
  if negb (nonEmpty ps) && negb (nonEmpty po) then 0%Z
  else if negb (nonEmpty ps) then 1%Z
  else if negb (nonEmpty po) then (-1)%Z
  else comparePrerelease ps po.

(** [Version.GreaterThan]. *)
Definition GreaterThan (v o : Version) : bool := (0 <? Compare v o)%Z.

(** [Version.LessThan] and [Version.Equal]. *)
Definition LessThan (v o : Version) : bool := (Compare v o <? 0)%Z.
Definition Equal (v o : Version) : bool := (Compare v o =? 0)%Z.

End semver.

(* ================================================================== *)
(** ** pkg/docker: the registry client                                 *)
(* ================================================================== *)

Module docker.
Import GoStrings.

Record RepositoryInfo : Type := {
  Namespace : string;
  Name : string;
  FullName : string
}.

(** The first statement of [ParseRepositoryName]: the string is cut at its
    first ':' when that colon is not the first byte ([idx > 0]). *)
Definition removeTag (repo : string) : string :=
  match IndexByte repo ":" with
  | Some (S i) => take (S i) repo
  | _ => repo
  end.

(** [ParseRepositoryName].  [Split] never returns the empty list; the
    two-segment case reads [split[0]] and [split[1]]. *)
Definition ParseRepositoryName (repo : string) : RepositoryInfo :=
  let repo := removeTag repo in
  match Split repo "/" with
  | [] =>
      {| Namespace := "library"; Name := EmptyString;
         FullName := "library/" |}
  | [x] =>
      {| Namespace := "library"; Name := x; FullName := "library/" ++ x |}
  | x :: y :: _ =>
      {| Namespace := x; Name := y; FullName := repo |}
  end.


(** [DockerHubTag]; of its fields the program reads [Name] only. *)
Record DockerHubTag : Type := {
  TagName : string;
  FullSize : Z
}.

(** [DockerHubResponse], the decoded body of one page.  A [next] that is
    absent or null in the JSON text decodes to the empty string. *)
Record DockerHubResponse : Type := {
  Results : list DockerHubTag;
  Next : string;
  Count : Z
}.

(** What reading and decoding the body of a response comes to. *)
Inductive bodyOutcome : Type :=
| BodyReadError                       (* io.ReadAll fails *)
| BodyBadJSON                         (* json.Unmarshal fails *)
| BodyParsed (parsed : DockerHubResponse).

(** What one page request comes to. *)
Inductive requestOutcome : Type :=
| NewRequestError                     (* http.NewRequestWithContext fails *)
| DoError                             (* httpClient.Do fails *)
| Response (StatusCode : Z) (body : bodyOutcome).

(** [Client].  The HTTP client is the function that answers a GET of an
    address. *)
Record Client : Type := {
  httpClient : string -> requestOutcome;
  pageSize : Z;
  baseURL : string
}.

Definition DefaultPageSize : Z := 100.
Definition DockerHubAPIBaseURL : string :=
  "https://hub.docker.com/v2/repositories".
Definition StatusOK : Z := 200.

(** [NewClient] without options, over a given transport. *)
Definition NewClient (transport : string -> requestOutcome) : Client :=
  {| httpClient := transport;
     pageSize := DefaultPageSize;
     baseURL := DockerHubAPIBaseURL |}.

Inductive fetchError : Type :=
| ErrCancelled                          (* ctx.Err() *)
| ErrCreatingRequest                    (* "error creating request: %w" *)
| ErrFetchingTags                       (* "error fetching tags: %w" *)
| ErrUnexpectedStatus (StatusCode : Z)  (* "unexpected status code: %d" *)
| ErrReadingResponse                    (* "error reading response: %w" *)
| ErrJSONParse.                         (* "JSON parse error: %w" *)

(** The first page's address:
    [fmt.Sprintf("%s/%s/%s/tags?page_size=%d", ...)]. *)
Definition tagsURL (c : Client) (repo : string) : string :=
  let repoInfo := ParseRepositoryName repo in
  baseURL c ++ "/" ++ Namespace repoInfo ++ "/" ++ Name repoInfo
            ++ "/tags?page_size=" ++ FormatInt (pageSize c).

(** The state of a fetch: the tags accumulated, the page counter and the
    addresses requested so far, in order. *)
Record fetchState : Type := {
  tags : list string;
  pageCount : nat;
  requested : list string
}.

(** The loop of [FetchAllTagsWithContext], run while [url] is not empty.
    [ctxDone n] tells whether the context is cancelled when the loop is
    about to fetch its page after [n] pages.  [fuel] bounds the number of
    iterations; [None] means the bound was reached with a page still to
    fetch. *)
Fixpoint fetchLoop (c : Client) (ctxDone : nat -> bool) (fuel : nat)
         (url : string) (st : fetchState)
  : option (fetchError + list string) * fetchState :=
  if String.eqb url EmptyString then (Some (inr (tags st)), st)
  else
    match fuel with
    | O => (None, st)
    | S fuel' =>
        if ctxDone (pageCount st) then (Some (inl ErrCancelled), st)
        else
          let st := {| tags := tags st;
                       pageCount := S (pageCount st);
                       requested := requested st |} in
          match httpClient c url with
          | NewRequestError => (Some (inl ErrCreatingRequest), st)
          | DoError =>
              (Some (inl ErrFetchingTags),
               {| tags := tags st; pageCount := pageCount st;
                  requested := requested st ++ [url] |})
          | Response code body =>
              let st := {| tags := tags st; pageCount := pageCount st;
                           requested := requested st ++ [url] |} in
              if negb (code =? StatusOK)%Z
              then (Some (inl (ErrUnexpectedStatus code)), st)
              else
                match body with
                | BodyReadError => (Some (inl ErrReadingResponse), st)
                | BodyBadJSON => (Some (inl ErrJSONParse), st)
                | BodyParsed parsed =>
                    fetchLoop c ctxDone fuel' (Next parsed)
                      {| tags := tags st ++ map TagName (Results parsed);
                         pageCount := pageCount st;
                         requested := requested st |}
                end
          end
    end.

Definition initialState : fetchState :=
  {| tags := []; pageCount := O; requested := [] |}.

(** [FetchAllTagsWithContext], with the final state of the loop. *)
Definition FetchAllTagsWithContext (c : Client) (ctxDone : nat -> bool)
           (fuel : nat) (repo : string)
  : option (fetchError + list string) * fetchState :=
  fetchLoop c ctxDone fuel (tagsURL c repo) initialState.

(** [context.Background()] is never cancelled. *)
Definition Background : nat -> bool := fun _ => false.

(** [FetchAllTags]. *)
Definition FetchAllTags (c : Client) (fuel : nat) (repo : string)
  : option (fetchError + list string) :=
  fst (FetchAllTagsWithContext c Background fuel repo).

End docker.

(* ================================================================== *)
(** ** Go's [sort.Slice]                                               *)
(* ================================================================== *)

(** [sort.Slice] belongs to Go's library.  It is taken by its contract: the
    slice is rearranged, and when [less] is a strict weak ordering of the
    elements no element ends up before one it is less than.  Which of
    several equivalent elements comes first is left open (the sort is not
    stable). *)

Module sort.

Section Contract.
Context {A : Type}.
Variable less : A -> A -> bool.

(** [less] is a strict weak ordering of the elements of [l]. *)
Record StrictWeak (l : list A) : Prop := {
  less_irrefl : forall a, In a l -> less a a = false;
  less_trans : forall a b c, In a l -> In b l -> In c l ->
    less a b = true -> less b c = true -> less a c = true;
  less_incomp : forall a b c, In a l -> In b l -> In c l ->
    less a b = false -> less b a = false ->
    less b c = false -> less c b = false ->
    less a c = false /\ less c a = false
}.

(** No element stands before one it is less than. *)
Definition Ordered (l : list A) : Prop :=
  StronglySorted (fun a b => less b a = false) l.
End Contract.

Class Slice : Type := {
  Slice_sort : forall {A : Type}, (A -> A -> bool) -> list A -> list A;
  Slice_perm : forall (A : Type) (less : A -> A -> bool) (l : list A),
    Permutation l (Slice_sort less l);
  Slice_ordered : forall (A : Type) (less : A -> A -> bool) (l : list A),
    StrictWeak less l -> Ordered less (Slice_sort less l)
}.

(** Insertion into a sorted slice: the element passes the elements that
    are less than it and stops before the first that is not. *)
Fixpoint insert {A : Type} (less : A -> A -> bool) (x : A) (l : list A)
  : list A :=
  match l with
  | [] => [x]
  | y :: l' => if less y x then y :: insert less x l' else x :: y :: l'
  end.

(** Sorting by insertion, which keeps equivalent elements in their
    order; it gives what Go's [insertionSortLessFunc] gives, the routine
    [sort.Slice] runs on slices of at most twelve elements. *)
Definition insertionSort {A : Type} (less : A -> A -> bool) (l : list A)
  : list A :=
  fold_right (insert less) [] l.

End sort.
(* ================================================================== *)
(** ** pkg/update/checker.go: the tag grammar                          *)
(* ================================================================== *)

Module update.
Import GoStrings.

(** The errors [CheckImage] can return. *)
Inductive error : Type :=
| ErrNoTagFound (image : string)        (* "no tag found in image: %s" *)
| ErrNotSemverLike (tag : string)       (* "tag not semver-like: %s" *)
| ErrInvalidSemver (versionStr : string)(* "invalid semantic version: %s: %w" *)
| ErrFindLatest (cause : docker.fetchError).
    (* "failed to find latest version: failed to fetch tags: %w" *)

(** [ImageTagPattern = `^([^:]+):(.+)$`] applied by
    [FindStringSubmatch]: group 1 is the non-empty run of bytes other than
    ':' at the start, which must be followed by ':'; group 2 is the rest,
    which must be non-empty and, since [.] excludes the newline and [$]
    only matches at the end of the text, free of newlines. *)
Definition matchImageTagPattern (image : string) : option (string * string) :=
  let (g1, rest) := span (fun a => negb (Ascii.eqb a ":")) image in
  match g1, rest with
  | EmptyString, _ => None
  | _, String _ g2 =>
      match g2 with
      | EmptyString => None
      | _ => if forallb (fun a => negb (Ascii.eqb a newline)) g2
             then Some (g1, g2) else None
      end
  | _, EmptyString => None
  end.

(** [parseImageString]. *)
Definition parseImageString (image : string) : error + (string * string) :=
  match matchImageTagPattern image with
  | None => inl (ErrNoTagFound image)
  | Some (repo, tag) => inr (repo, tag)
  end.

(** [\d+\.\d+\.\d+$] against a whole string. *)
Definition isTriplet (s : string) : bool :=
  let (a, r1) := span isDigit s in
  match a, r1 with
  | String _ _, String "." r1' =>
      let (b, r2) := span isDigit r1' in
      match b, r2 with
      | String _ _, String "." r2' =>
          let (c, r3) := span isDigit r2' in
          match c, r3 with
          | String _ _, EmptyString => true
          | _, _ => false
          end
      | _, _ => false
      end
  | _, _ => false
  end.

(** [SemverTagPattern = `^(.*?)(\d+\.\d+\.\d+)$`]: the lazy group 1 is the
    shortest newline-free prefix whose remainder is a dotted triplet of
    digit runs reaching the end of the text. *)
Fixpoint matchSemverTagPattern (tag : string) : option (string * string) :=
  if isTriplet tag then Some (EmptyString, tag)
  else
    match tag with
    | EmptyString => None
    | String a tag' =>
        if Ascii.eqb a newline then None
        else
          match matchSemverTagPattern tag' with
          | Some (p, v) => Some (String a p, v)
          | None => None
          end
    end.

(** [extractVersionFromTag]. *)
Definition extractVersionFromTag (tag : string) : error + (string * string) :=
  match matchSemverTagPattern tag with
  | None => inl (ErrNotSemverLike tag)
  | Some (prefix, versionStr) => inr (prefix, versionStr)
  end.

(** [VersionInfo]. *)
Record VersionInfo : Type := {
  FullTag : string;
  Version : semver.Version
}.

(** [ImageInfo].  [LatestVersion] is a pointer, nil until a matching tag
    is found. *)
Record ImageInfo : Type := {
  Repository : string;
  Tag : string;
  Prefix : string;
  CurrentVersion : semver.Version;
  LatestTag : string;
  LatestVersion : option semver.Version;
  HasUpdate : bool
}.

Section Resolution.

(** The setting of the semver module and the sorting routine in use. *)
Variable CoerceNewVersion : bool.
Context {Sorter : sort.Slice}.

(** [findMatchingVersions]: the tags are visited in order and the
    matching ones appended. *)
Fixpoint findMatchingVersions (tags : list string) (prefix : string)
  : list VersionInfo :=
  match tags with
  | [] => []
  | tag :: rest =>
      if HasPrefix tag prefix then
        let suffix := TrimPrefix tag prefix in
        match semver.NewVersion CoerceNewVersion suffix with
        | Some version =>
            {| FullTag := tag; Version := version |}
              :: findMatchingVersions rest prefix
        | None => findMatchingVersions rest prefix
        end
      else findMatchingVersions rest prefix
  end.

(** The comparison handed to [sort.Slice]: version descending. *)
Definition byVersionDescending (a b : VersionInfo) : bool :=
  semver.GreaterThan (Version a) (Version b).

(** [findLatestVersion]; the inner [None] is the nil result for no
    matching version.  Sorting happens in place, so index 0 exists
    whenever the slice is non-empty. *)
Definition findLatestVersion (repo prefix : string)
           (dockerClient : docker.Client) (fuel : nat)
  : option (error + option VersionInfo) :=
  match docker.FetchAllTags dockerClient fuel repo with
  | None => None
  | Some (inl e) => Some (inl (ErrFindLatest e))
  | Some (inr tags) =>
      let matchedVersions := findMatchingVersions tags prefix in
      match matchedVersions with
      | [] => Some (inr None)
      | first :: _ =>
          Some (inr (Some (hd first
                (sort.Slice_sort byVersionDescending matchedVersions))))
      end
  end.

(** [CheckImage]; the outer [None] means the tag fetch did not finish
    within [fuel] pages. *)
Definition CheckImage (image : string) (dockerClient : docker.Client)
           (fuel : nat) : option (error + ImageInfo) :=
  match parseImageString image with
  | inl e => Some (inl e)
  | inr (repo, tag) =>
    match extractVersionFromTag tag with
    | inl e => Some (inl e)
    | inr (prefix, versionStr) =>
      match semver.NewVersion CoerceNewVersion versionStr with
      | None => Some (inl (ErrInvalidSemver versionStr))
      | Some currentVer =>
        match findLatestVersion repo prefix dockerClient fuel with
        | None => None
        | Some (inl e) => Some (inl e)
        | Some (inr None) =>
            Some (inr {| Repository := repo; Tag := tag;
                         Prefix := prefix; CurrentVersion := currentVer;
                         LatestTag := EmptyString; LatestVersion := None;
                         HasUpdate := false |})
        | Some (inr (Some latestVersion)) =>
            Some (inr {| Repository := repo; Tag := tag;
                         Prefix := prefix; CurrentVersion := currentVer;
                         LatestTag := FullTag latestVersion;
                         LatestVersion := Some (Version latestVersion);
                         HasUpdate :=
                           semver.GreaterThan (Version latestVersion)
                                              currentVer |})
        end
      end
    end
  end.

End Resolution.

End update.


(* ================================================================== *)
(** ** pkg/validation and pkg/config                                   *)
(* ================================================================== *)

Module validation.
Import GoStrings.

(** [ValidationError]. *)
Record ValidationError : Type := {
  Field : string;
  Message : string
}.

(** [ValidationErrors]: the collection, in the order of the [Add] calls. *)
Definition ValidationErrors : Type := list ValidationError.

Definition HasErrors (e : ValidationErrors) : bool :=
  match e with [] => false | _ => true end.

Definition Add (e : ValidationErrors) (field message : string)
  : ValidationErrors :=
  e ++ [{| Field := field; Message := message |}].

Section Runtime.

(** [rangeOrder m] is the order in which a [range] over the map [m]
    visits its entries; Go leaves it unspecified. *)
Variable rangeOrder : list (string * string) -> list (string * string).

(** [url.Parse] of Go's library: an error text, or the scheme and the
    host of the parsed address. *)
Variable url_Parse : string -> string + (string * string).

(** [GetMissingVars]. *)
Definition GetMissingVars (requiredVars : list (string * string))
  : list string :=
  map fst (filter (fun kv => String.eqb (snd kv) EmptyString)
                  (rangeOrder requiredVars)).

(** [ValidateURL]; [None] is the nil error. *)
Definition ValidateURL (urlStr : string) : option string :=
  if String.eqb urlStr EmptyString then None
  else
    match url_Parse urlStr with
    | inl err =>
        Some ("invalid URL: " ++ urlStr
              ++ " (parse error: " ++ err ++ ")")%string
    | inr (scheme, host) =>
        if String.eqb scheme EmptyString || String.eqb host EmptyString
        then Some ("invalid URL: " ++ urlStr
                     ++ " (missing scheme or host)")%string
        else None
    end.

End Runtime.

End validation.

Module config.
Import GoStrings validation.

Definition EnvPrefix : string := "IMG_UPGR_".
Definition EnvGitLabUser : string := (EnvPrefix ++ "GL_USER")%string.
Definition EnvGitLabToken : string := (EnvPrefix ++ "GL_TOKEN")%string.
Definition EnvGitLabRepo : string := (EnvPrefix ++ "GL_REPO")%string.
Definition EnvGitLabEmail : string := (EnvPrefix ++ "GL_EMAIL")%string.
Definition DefaultLogLevel : string := "INFO".
Definition DefaultOutputFormat : string := "text".
Definition DefaultTargetBranch : string := "main".

(** The value held by the field [GitLabClient interface{}]. *)
Inductive clientValue : Type :=
| NilClient                 (* nil, before initialization *)
| GitLabAPIClient           (* a *gitlab.Client *)
| OtherValue.               (* a value of another type *)

(** [Config]. *)
Record Config : Type := {
  Verbose : bool;
  Quiet : bool;
  LogLevel : string;
  OutputFormat : string;
  DryRun : bool;
  ScanDir : string;
  CreateMR : bool;
  TargetBranch : string;
  TempDir : string;
  ClonedRepo : bool;
  GitLabUser : string;
  GitLabToken : string;
  GitLabRepo : string;
  GitLabProjectID : string;
  GitLabEmail : string;
  GitLabClient : clientValue
}.

(** [New]. *)
Definition New : Config :=
  {| Verbose := false; Quiet := false; LogLevel := DefaultLogLevel;
     OutputFormat := DefaultOutputFormat; DryRun := false;
     ScanDir := EmptyString; CreateMR := false;
     TargetBranch := DefaultTargetBranch; TempDir := EmptyString;
     ClonedRepo := false; GitLabUser := EmptyString;
     GitLabToken := EmptyString; GitLabRepo := EmptyString;
     GitLabProjectID := EmptyString; GitLabEmail := EmptyString;
     GitLabClient := NilClient |}.

Section Runtime.
Variable rangeOrder : list (string * string) -> list (string * string).
Variable url_Parse : string -> string + (string * string).

(** The map literal [requiredVars] of [ValidateGitLab]. *)
Definition requiredVars (c : Config) : list (string * string) :=
  [ (EnvGitLabUser, GitLabUser c);
    (EnvGitLabToken, GitLabToken c);
    (EnvGitLabRepo, GitLabRepo c);
    (EnvGitLabEmail, GitLabEmail c) ].

(** [ValidateGitLab]; [None] is the nil error. *)
Definition ValidateGitLab (c : Config) : option ValidationErrors :=
  let validationErrors : ValidationErrors := [] in
  let validationErrors :=
    if CreateMR c then
      let missingVars := GetMissingVars rangeOrder (requiredVars c) in
      let validationErrors :=
        if (0 <? List.length missingVars)%nat
        then Add validationErrors "GitLab"
               ("missing required environment variables: "
                  ++ Join missingVars ", ")%string
        else validationErrors in
      match ValidateURL url_Parse (GitLabRepo c) with
      | Some err => Add validationErrors "GitLabRepo" err
      | None => validationErrors
      end
    else validationErrors in
  if HasErrors validationErrors then Some validationErrors else None.

End Runtime.

End config.

(* ================================================================== *)
(** ** Package cmd: what the scan and check commands share             *)
(* ================================================================== *)

Module cmd.
Import GoStrings.

(** A [time.Time], by its civil fields. *)
Record Time : Type := {
  Year : Z;
  Month : N;
  Day : N;
  Hour : N;
  Minute : N;
  Second : N;
  Nanosecond : N
}.

Fixpoint zeros (n : nat) : string :=
  match n with
  | O => EmptyString
  | S k => String "0" (zeros k)
  end.

(** [appendInt] of package time: the decimal digits, padded with zeros on
    the left up to [width], after a '-' for a negative number. *)
Definition appendInt (x : Z) (width : nat) : string :=
  let digits := FormatUint (Z.to_N (Z.abs x)) in
  let padded := (zeros (width - String.length digits) ++ digits)%string in
  if (x <? 0)%Z then String "-" padded else padded.

(** [t.Format("20060102-150405")]: year, month, day, a hyphen, hour,
    minute, second. *)
Definition Format_20060102_150405 (t : Time) : string :=
  appendInt (Year t) 4 ++ appendInt (Z.of_N (Month t)) 2
    ++ appendInt (Z.of_N (Day t)) 2 ++ "-"
    ++ appendInt (Z.of_N (Hour t)) 2 ++ appendInt (Z.of_N (Minute t)) 2
    ++ appendInt (Z.of_N (Second t)) 2.

(** The calls to package logger made by the commands: the level, the
    format string and the arguments handed to it. *)
Inductive Level : Type := DEBUG | INFO | WARN | ERROR.

Record LogEntry : Type := {
  level : Level;
  format : string;
  args : list string
}.

Section Effects.

(** Everything outside the program that the workflow reads or changes:
    the clock, the cloned repository, the files, the GitLab server. *)
Variable World : Type.

(** The state threaded through a command: the outside world and the log
    written so far. *)
Record state : Type := {
  world : World;
  log : list LogEntry
}.

Definition M (A : Type) : Type := state -> A * state.

Definition ret {A : Type} (a : A) : M A := fun s => (a, s).

Definition bind {A B : Type} (m : M A) (k : A -> M B) : M B :=
  fun s => let (a, s') := m s in k a s'.

(** An operation on the outside world.  The log of the state holds the
    entries the commands write themselves: what a function of package
    gitlab writes to the logger while it runs is not recorded in it, and
    the statements about the log as a whole take such entries as shuffled
    in between. *)
Definition lift {A : Type} (op : World -> A * World) : M A :=
  fun s => let (a, w) := op (world s) in
           (a, {| world := w; log := log s |}).

Definition logf (lv : Level) (fmt : string) (a : list string) : M unit :=
  fun s => (tt, {| world := world s;
                   log := log s ++ [{| level := lv; format := fmt;
                                       args := a |}] |}).

(** [PrintInfo] and [PrintVerbose] of root.go. *)
Definition PrintInfo (fmt : string) (a : list string) : M unit :=
  logf INFO fmt a.
Definition PrintVerbose (fmt : string) (a : list string) : M unit :=
  logf DEBUG fmt a.

End Effects.

Arguments world {World} _.
Arguments log {World} _.
Arguments ret {World A} _ _.
Arguments bind {World A B} _ _ _.
Arguments lift {World A} _ _.
Arguments logf {World} _ _ _ _.
Arguments PrintInfo {World} _ _ _.
Arguments PrintVerbose {World} _ _ _.

(** The operations of package gitlab, of package os and of the clock that
    the two workflows call.  An error is its text; [None] is nil. *)
Record Gateways (World : Type) : Type := {
  time_Now : World -> Time * World;
  CreateBranchInRepo : string -> string -> World -> option string * World;
  ReadFile : string -> World -> (string + string) * World;
  WriteFile : string -> string -> World -> option string * World;
  CommitAndPushChanges : string -> World -> option string * World;
  GetCurrentBranch : World -> (string + string) * World;
  GetDefaultBranch : World -> (string + string) * World;
  gitlab_NewClient : World -> option string * World;
  CreateMergeRequest :
    string -> string -> string -> string -> World -> option string * World;
  ctx_Done : World -> bool * World;
  ctx_Err : string;
  GetRelativePath : string -> string;
  filepath_Base : string -> string;
  Format_RFC3339 : Time -> string
}.

Arguments time_Now {World} _ _.
Arguments CreateBranchInRepo {World} _ _ _ _.
Arguments ReadFile {World} _ _ _.
Arguments WriteFile {World} _ _ _ _.
Arguments CommitAndPushChanges {World} _ _ _.
Arguments GetCurrentBranch {World} _ _.
Arguments GetDefaultBranch {World} _ _.
Arguments gitlab_NewClient {World} _ _.
Arguments CreateMergeRequest {World} _ _ _ _ _ _.
Arguments ctx_Done {World} _ _.
Arguments ctx_Err {World} _.
Arguments GetRelativePath {World} _ _.
Arguments filepath_Base {World} _ _.
Arguments Format_RFC3339 {World} _ _.

End cmd.

Declare Scope cmd_scope.
Delimit Scope cmd_scope with cmd.
Notation "x <- m ;; k" := (cmd.bind m (fun x => k))
  (at level 61, m at next level, right associativity) : cmd_scope.
Notation "m ;;; k" := (cmd.bind m (fun _ => k))
  (at level 61, right associativity) : cmd_scope.

(* ================================================================== *)
(** ** The scan command: createMergeRequests                           *)
(* ================================================================== *)

Module scan.
Import GoStrings cmd.

(** [UpdatedImage]. *)
Record UpdatedImage : Type := {
  ServiceName : string;
  FilePath : string;
  OldImage : string;
  NewImage : string;
  Repository : string;
  OldTag : string;
  NewTag : string
}.

(** [sanitizeBranchName]. *)
Definition sanitizeBranchName (name : string) : string :=
  let name := ReplaceAll name "/" "-" in
  let name := ReplaceAll name ":" "-" in
  let name := ReplaceAll name "." "-" in
  name.

(** [generateBranchName], given the reading of the clock. *)
Definition branchNameAt (now : Time) (serviceName : string) : string :=
  let timestamp := Format_20060102_150405 now in
  let sanitizedName := sanitizeBranchName serviceName in
  "img-upgr/" ++ sanitizedName ++ "-" ++ timestamp.

(** [buildMergeRequestDescription]. *)
Definition buildMergeRequestDescription {World : Type}
           (G : Gateways World) (update : UpdatedImage) : string :=
  "Automated update of Docker image by img-upgr" ++ nl ++ nl
    ++ "Service: `" ++ ServiceName update ++ "`" ++ nl
    ++ "File: `" ++ filepath_Base G (FilePath update) ++ "`" ++ nl
    ++ "Update: `" ++ OldTag update ++ "` → `" ++ NewTag update ++ "`" ++ nl.

Section Workflow.
Variable World : Type.
Variable G : Gateways World.
(** The package variable [cfg]. *)
Variable cfg : config.Config.

Local Open Scope cmd_scope.

Definition generateBranchName (serviceName : string) : M World string :=
  now <- lift (time_Now G) ;;
  ret (branchNameAt now serviceName).

(** [updateFileContent]. *)
Definition updateFileContent (update : UpdatedImage)
  : M World (option string) :=
  r <- lift (ReadFile G (FilePath update)) ;;
  match r with
  | inl err => ret (Some ("failed to read file: " ++ err)%string)
  | inr content =>
      let newContent :=
        ReplaceAll content (OldImage update) (NewImage update) in
      w <- lift (WriteFile G (FilePath update) newContent) ;;
      match w with
      | Some err => ret (Some ("failed to write file: " ++ err)%string)
      | None => ret None
      end
  end.

(** [submitMergeRequest]. *)
Definition submitMergeRequest (update : UpdatedImage)
  : M World (option string) :=
  r <- lift (GetCurrentBranch G) ;;
  match r with
  | inl err => ret (Some ("failed to get current branch: " ++ err)%string)
  | inr currentBranch =>
      let title := ("Update " ++ ServiceName update ++ " from "
                      ++ OldTag update ++ " to " ++ NewTag update)%string in
      let description := buildMergeRequestDescription G update in
      PrintInfo "Creating merge request for %s" [ServiceName update] ;;;
      match config.GitLabClient cfg with
      | config.GitLabAPIClient =>
          e <- lift (CreateMergeRequest G currentBranch
                       (config.TargetBranch cfg) title description) ;;
          match e with
          | Some err =>
              ret (Some ("failed to create merge request: " ++ err)%string)
          | None => ret None
          end
      | _ => ret (Some "invalid GitLab client type")
      end
  end.

(** [createMergeRequestForUpdate]. *)
Definition createMergeRequestForUpdate (update : UpdatedImage)
  : M World (option string) :=
  branchName <- generateBranchName (ServiceName update) ;;
  PrintInfo "Creating branch %s for updating %s"
            [branchName; ServiceName update] ;;;
  e <- lift (CreateBranchInRepo G branchName (config.TargetBranch cfg)) ;;
  match e with
  | Some err => ret (Some ("failed to create branch: " ++ err)%string)
  | None =>
    e <- updateFileContent update ;;
    match e with
    | Some err =>
        ret (Some ("failed to update file content: " ++ err)%string)
    | None =>
      let relPath := GetRelativePath G (FilePath update) in
      PrintInfo "Committing changes to %s" [relPath] ;;;
      let commitMsg :=
        ("Update Docker image for " ++ ServiceName update ++ " in "
           ++ filepath_Base G (FilePath update))%string in
      e <- lift (CommitAndPushChanges G commitMsg) ;;
      match e with
      | Some err => ret (Some ("failed to commit changes: " ++ err)%string)
      | None =>
        e <- submitMergeRequest update ;;
        match e with
        | Some err =>
            ret (Some ("failed to create merge request: " ++ err)%string)
        | None => ret None
        end
      end
    end
  end.

(** The loop of [createMergeRequests]. *)
Fixpoint processUpdates (updates : list UpdatedImage) : M World unit :=
  match updates with
  | [] => ret tt
  | update :: rest =>
      e <- createMergeRequestForUpdate update ;;
      match e with
      | Some err =>
          logf ERROR "Failed to create merge request for %s: %v"
               [ServiceName update; err]
      | None =>
          PrintInfo "Created merge request successfully for %s"
                    [ServiceName update]
      end ;;;
      processUpdates rest
  end.

(** [createMergeRequests]. *)
Definition createMergeRequests (updates : list UpdatedImage)
  : M World unit :=
  match config.GitLabClient cfg with
  | config.NilClient => logf ERROR "GitLab client not initialized" []
  | _ =>
      if negb (config.ClonedRepo cfg)
      then logf ERROR "Repository not cloned" []
      else processUpdates updates
  end.

End Workflow.

End scan.

(* ================================================================== *)
(** ** The check command: createMergeRequestsForUpdates                *)
(* ================================================================== *)

Module check.
Import GoStrings cmd.

(** [UpdateInfo]. *)
Record UpdateInfo : Type := {
  FilePath : string;
  ServiceName : string;
  OldImage : string;
  NewImage : string;
  Repository : string;
  OldTag : string;
  NewTag : string
}.

(** The branch name computed in the loop of
    [createMergeRequestsForUpdates], given the reading of the clock. *)
Definition branchNameAt (now : Time) (serviceName : string) : string :=
  let timestamp := Format_20060102_150405 now in
  let serviceSanitized := ReplaceAll serviceName "/" "-" in
  "img-upgr/" ++ serviceSanitized ++ "-" ++ timestamp.

Section Workflow.
Variable World : Type.
Variable G : Gateways World.

Local Open Scope cmd_scope.

(** [formatMergeRequestDescription]. *)
Definition formatMergeRequestDescription (update : UpdateInfo)
  : M World string :=
  now <- lift (time_Now G) ;;
  ret ("Automated update of Docker image by img-upgr" ++ nl ++ nl
    ++ "Service: `" ++ ServiceName update ++ "`" ++ nl
    ++ "File: `" ++ filepath_Base G (FilePath update) ++ "`" ++ nl
    ++ "Update: `" ++ OldTag update ++ "` → `" ++ NewTag update ++ "`"
    ++ nl
    ++ "Repository: `" ++ Repository update ++ "`" ++ nl
    ++ nl ++ "Generated: " ++ Format_RFC3339 G now)%string.

(** One iteration of the loop, after the cancellation check; every
    [continue] of the source ends the iteration. *)
Definition processUpdate (update : UpdateInfo) : M World unit :=
  now <- lift (time_Now G) ;;
  let branchName := branchNameAt now (ServiceName update) in
  r <- lift (GetDefaultBranch G) ;;
  match r with
  | inl err => logf ERROR "Error getting default branch: %v" [err]
  | inr defaultBranch =>
    logf INFO "Creating branch %s for updating %s from default branch %s"
         [branchName; ServiceName update; defaultBranch] ;;;
    e <- lift (CreateBranchInRepo G branchName defaultBranch) ;;
    match e with
    | Some err => logf ERROR "Error creating branch: %v" [err]
    | None =>
      let filePath := FilePath update in
      r <- lift (ReadFile G filePath) ;;
      match r with
      | inl err => logf ERROR "Error reading file %s: %v" [filePath; err]
      | inr content =>
        logf INFO "Updating %s: %s → %s"
             [ServiceName update; OldImage update; NewImage update] ;;;
        let newContent :=
          ReplaceAll content (OldImage update) (NewImage update) in
        e <- lift (WriteFile G filePath newContent) ;;
        match e with
        | Some err =>
            logf ERROR "Error writing file %s: %v" [filePath; err]
        | None =>
          let relPath := GetRelativePath G filePath in
          let commitMsg :=
            ("Update Docker image for " ++ ServiceName update ++ " in "
               ++ filepath_Base G filePath)%string in
          logf INFO "Committing changes to %s" [relPath] ;;;
          e <- lift (CommitAndPushChanges G commitMsg) ;;
          match e with
          | Some err => logf ERROR "Error committing changes: %v" [err]
          | None =>
            r <- lift (GetCurrentBranch G) ;;
            match r with
            | inl err =>
                logf ERROR "Error getting current branch: %v" [err]
            | inr currentBranch =>
              r <- lift (GetDefaultBranch G) ;;
              match r with
              | inl err =>
                  logf ERROR "Error getting default branch: %v" [err]
              | inr defaultBranch =>
                let title :=
                  ("Update " ++ ServiceName update ++ " from "
                     ++ OldTag update ++ " to " ++ NewTag update)%string in
                description <- formatMergeRequestDescription update ;;
                logf INFO "Creating merge request for %s targeting %s"
                     [ServiceName update; defaultBranch] ;;;
                e <- lift (gitlab_NewClient G) ;;
                match e with
                | Some err =>
                    logf ERROR "Error creating GitLab client: %v" [err]
                | None =>
                  e <- lift (CreateMergeRequest G currentBranch
                               defaultBranch title description) ;;
                  match e with
                  | Some err =>
                      logf ERROR "Error creating merge request: %v" [err]
                  | None =>
                      logf INFO
                           "Created merge request successfully for %s"
                           [ServiceName update]
                  end
                end
              end
            end
          end
        end
      end
    end
  end.

(** [createMergeRequestsForUpdates]; the result is [ctx.Err()] when the
    context is found cancelled, nil otherwise. *)
Fixpoint createMergeRequestsForUpdates (updates : list UpdateInfo)
  : M World (option string) :=
  match updates with
  | [] => ret None
  | update :: rest =>
      done <- lift (ctx_Done G) ;;
      if (done : bool) then ret (Some (ctx_Err G))
      else processUpdate update ;;; createMergeRequestsForUpdates rest
  end.

End Workflow.

End check.

(* ================================================================== *)
(** ** More of Go's [strings]                                          *)
(* ================================================================== *)

Module GoStringsExt.
Import GoStrings.

(** [strings.HasSuffix]. *)
Definition HasSuffix (s suffix : string) : bool :=
  (String.length suffix <=? String.length s)%nat
  && String.eqb (drop (String.length s - String.length suffix) s) suffix.

(** [strings.TrimSuffix]. *)
Definition TrimSuffix (s suffix : string) : string :=
  if HasSuffix s suffix
  then take (String.length s - String.length suffix) s
  else s.

End GoStringsExt.

(* ================================================================== *)
(** ** pkg/validation, continued                                       *)
(* ================================================================== *)

Module validation_rest.
Import GoStrings validation.

(** [ValidateRequiredVars]; [None] is the nil error. *)
Definition ValidateRequiredVars
           (rangeOrder : list (string * string) -> list (string * string))
           (requiredVars : list (string * string)) : option string :=
  let missing := GetMissingVars rangeOrder requiredVars in
  if (0 <? List.length missing)%nat
  then Some ("missing required variables: " ++ Join missing ", ")%string
  else None.

(** A Go error value, as far as [CombineErrors] tells errors apart: an
    error made elsewhere, known by its message, or the value built by
    [errors.Join], which wraps the errors it was given. *)
#[local] Unset Elimination Schemes.
Inductive error : Type :=
| errorString (msg : string)
| joinError (errs : list error).
#[local] Set Elimination Schemes.

(** [err.Error()]: the messages of the errors wrapped by a joined error,
    separated by newlines. *)
Fixpoint Error (err : error) : string :=
  match err with
  | errorString msg => msg
  | joinError errs => Join (map Error errs) nl
  end.

(** The errors that are not nil, in order. *)
Fixpoint nonNil (errs : list (option error)) : list error :=
  match errs with
  | [] => []
  | Some err :: rest => err :: nonNil rest
  | None :: rest => nonNil rest
  end.

(** [errors.Join]: nil errors are discarded, and the result is nil when
    every error is nil. *)
Definition errors_Join (errs : list (option error)) : option error :=
  match nonNil errs with
  | [] => None
  | kept => Some (joinError kept)
  end.

(** [CombineErrors]; [None] is the nil error. *)
Definition CombineErrors (errs : list (option error)) : option error :=
  let nonNilErrs := nonNil errs in
  match nonNilErrs with
  | [] => None
  | [err] => Some err
  | _ => errors_Join (map Some nonNilErrs)
  end.

(** [IsValidOutputFormat]. *)
Definition IsValidOutputFormat (format : string)
           (validFormats : list string) : bool :=
  existsb (String.eqb format) validFormats.

End validation_rest.

(* ================================================================== *)
(** ** pkg/config, continued                                           *)
(* ================================================================== *)

Module config_rest.
Import GoStrings GoStringsExt.

(** [ComposeFilePatterns]. *)
Definition ComposeFileNames : list string := ["docker-compose"; "compose"].
Definition ComposeFileExtensions : list string := [".yml"; ".yaml"].

(** [isComposeFile]: each loop stops at the first pattern that fits. *)
Definition isComposeFile (filename : string) : bool :=
  let hasComposeInName := existsb (Contains filename) ComposeFileNames in
  let hasYamlExtension :=
    existsb (HasSuffix filename) ComposeFileExtensions in
  hasComposeInName && hasYamlExtension.

End config_rest.

(* ================================================================== *)
(** ** pkg/gitlab                                                      *)
(* ================================================================== *)

Module gitlab.
Import GoStrings GoStringsExt.

(** [extractHostFromURL] of repo.go. *)
Definition extractHostFromURL (url : string) : string :=
  let url := TrimPrefix url "https://" in
  let url := TrimPrefix url "http://" in
  match IndexByte url "/" with
  | Some i => take i url
  | None => url
  end.

(** [validateRepoCloned]; [None] is the nil error. *)
Definition validateRepoCloned (cfg : config.Config) : option string :=
  if negb (config.ClonedRepo cfg) || String.eqb (config.TempDir cfg) EmptyString
  then Some "repository not cloned"%string
  else None.

Section DefaultBranch.

(** [strings.TrimSpace] of Go's library, which knows the white space of
    Unicode. *)
Variable TrimSpace : string -> string.

(** The loop of [GetDefaultBranch] over the lines of the output of
    [git remote show origin]: the first line that, trimmed, starts with
    "HEAD branch:" decides. *)
Fixpoint findHeadBranch (lines : list string) : option string :=
  match lines with
  | [] => None
  | line :: rest =>
      let line := TrimSpace line in
      if HasPrefix line "HEAD branch:"
      then Some (TrimSpace (TrimPrefix line "HEAD branch:"))
      else findHeadBranch rest
  end.

(** [GetDefaultBranch], given what the two git commands come to: the
    output, or an error.  The second command is only run when the first
    does not settle the branch. *)
Definition GetDefaultBranch (cfg : config.Config)
           (remoteShow symbolicRef : string + string) : string + string :=
  match validateRepoCloned cfg with
  | Some err => inl err
  | None =>
      let fromRemote :=
        match remoteShow with
        | inr output => findHeadBranch (Split output newline)
        | inl _ => None
        end in
      match fromRemote with
      | Some defaultBranch => inr defaultBranch
      | None =>
          match symbolicRef with
          | inr output => inr (TrimPrefix (TrimSpace output) "origin/")
          | inl _ => inr "main"%string
          end
      end
  end.

End DefaultBranch.

(** [extractProjectPath] of client.go.  [url_Path] stands for [url.Parse]
    followed by the reading of [Path]; [None] when the address does not
    parse. *)
Definition extractProjectPath (url_Path : string -> option string)
           (repoURL : string) : string :=
  match url_Path repoURL with
  | None => EmptyString
  | Some path =>
      let path := TrimSuffix path ".git" in
      let path := TrimPrefix path "/" in
      path
  end.

End gitlab.

(* ================================================================== *)
(** ** The scan command: checkImageForUpdates                          *)
(* ================================================================== *)

Module scan_check.
Import GoStrings cmd update.

Section Texts.

(** The messages of the errors that come from outside the program: that
    of the semver module for a version string, and that of a failed tag
    fetch. *)
Variable semverText : string -> string.
Variable fetchText : docker.fetchError -> string.

(** [err.Error()] for the errors of [CheckImage]. *)
Definition Error (err : error) : string :=
  match err with
  | ErrNoTagFound image => "no tag found in image: " ++ image
  | ErrNotSemverLike tag => "tag not semver-like: " ++ tag
  | ErrInvalidSemver versionStr =>
      "invalid semantic version: " ++ versionStr ++ ": "
        ++ semverText versionStr
  | ErrFindLatest cause =>
      "failed to find latest version: failed to fetch tags: "
        ++ fetchText cause
  end.

Variable World : Type.
Variable CoerceNewVersion : bool.
Context {Sorter : sort.Slice}.

Local Open Scope cmd_scope.

(** [checkImageForUpdates].  The result is the error, or the update or nil;
    the outer [None] means the tag fetch did not finish within [fuel]
    pages. *)
Definition checkImageForUpdates (serviceName imageName filePath : string)
           (dockerClient : docker.Client) (fuel : nat)
  : M World (option (string + option scan.UpdatedImage)) :=
  PrintInfo "  Checking image for service %s: %s"
            [serviceName; imageName] ;;;
  match CheckImage CoerceNewVersion imageName dockerClient fuel with
  | None => ret None
  | Some (inl err) =>
      if Contains (Error err) "no tag found"
         || Contains (Error err) "tag not semver-like"
      then
        PrintVerbose "    Skipping %s: %v" [serviceName; Error err] ;;;
        ret (Some (inr None))
      else ret (Some (inl ("error checking image: " ++ Error err)%string))
  | Some (inr info) =>
      PrintVerbose "    Parsed version: prefix='%s', version=%s"
                   [Prefix info; semver.String_ (CurrentVersion info)] ;;;
      match LatestVersion info with
      | None =>
          PrintVerbose "    No matching versions found for %s"
                       [serviceName] ;;;
          ret (Some (inr None))
      | Some _ =>
          if negb (HasUpdate info)
          then
            PrintVerbose "    ✓ Image is up to date" [] ;;;
            ret (Some (inr None))
          else
            PrintInfo "    ✓ Update available: %s → %s"
                      [Tag info; LatestTag info] ;;;
            PrintInfo "      Suggested image: %s:%s"
                      [Repository info; LatestTag info] ;;;
            ret (Some (inr (Some
              {| scan.ServiceName := serviceName;
                 scan.FilePath := filePath;
                 scan.OldImage := imageName;
                 scan.NewImage :=
                   (Repository info ++ ":" ++ LatestTag info)%string;
                 scan.Repository := Repository info;
                 scan.OldTag := Tag info;
                 scan.NewTag := LatestTag info |})))
      end
  end.

End Texts.

End scan_check.

(* ================================================================== *)
(** ** Notions used to state the properties                            *)
(* ================================================================== *)

Import GoStrings update docker.

(** What is left of a repository string once it is cut at its first colon,
    when that colon is not the first byte: the string itself when it holds
    no colon or starts with one, and otherwise the part before its first
    colon. *)
Inductive cutAtFirstColon (repo : string) : string -> Prop :=
| cut_no_colon :
    contains_byte ":" repo = false -> cutAtFirstColon repo repo
| cut_leading_colon :
    HasPrefix repo ":" = true -> cutAtFirstColon repo repo
| cut_before_colon (head rest : string) :
    head <> EmptyString ->
    contains_byte ":" head = false ->
    repo = (head ++ ":" ++ rest)%string ->
    cutAtFirstColon repo head.

(** The tag names of one page, in response order. *)
Definition pageTags (p : DockerHubResponse) : list string :=
  map TagName (Results p).

(** [pagesUpTo c url pages url']: asked for [url], the registry behind [c]
    answers with the pages [pages] one after the other, each with status 200
    and each naming the address of the following one, and the last of them
    names [url'].  A chain of pages is complete when [url'] is empty. *)
Inductive pagesUpTo (c : Client)
  : string -> list DockerHubResponse -> string -> Prop :=
| pagesUpTo_nil : forall url, pagesUpTo c url [] url
| pagesUpTo_cons : forall url p pages url',
    url <> EmptyString ->
    httpClient c url = Response StatusOK (BodyParsed p) ->
    pagesUpTo c (Next p) pages url' ->
    pagesUpTo c url (p :: pages) url'.

(** The addresses of the pages of a chain that starts at [url]. *)
Fixpoint chainURLs (url : string) (pages : list DockerHubResponse)
  : list string :=
  match pages with
  | [] => []
  | p :: pages' => url :: chainURLs (Next p) pages'
  end.

(** All the tag names of a chain: page order, then response order. *)
Definition chainTags (pages : list DockerHubResponse) : list string :=
  concat (map pageTags pages).

(** The state of the fetch loop after the pages of a chain. *)
Definition afterPages (st : fetchState) (url : string)
           (pages : list DockerHubResponse) : fetchState :=
  {| tags := tags st ++ chainTags pages;
     pageCount := pageCount st + List.length pages;
     requested := requested st ++ chainURLs url pages |}.

(** A mocked registry for one repository: three pages of two tags each. *)
Definition mockPage (a b next : string) : DockerHubResponse :=
  {| Results := [ {| TagName := a; FullSize := 0 |};
                  {| TagName := b; FullSize := 0 |} ];
     Next := next; Count := 6 |}.

Definition mockURL1 : string :=
  "https://hub.docker.com/v2/repositories/library/nginx/tags?page_size=100".
Definition mockURL2 : string := "https://hub.docker.com/page2".
Definition mockURL3 : string := "https://hub.docker.com/page3".

Definition mockRegistry (url : string) : requestOutcome :=
  if String.eqb url mockURL1
  then Response 200 (BodyParsed (mockPage "1.0.0" "1.1.0" mockURL2))
  else if String.eqb url mockURL2
  then Response 200 (BodyParsed (mockPage "1.2.0" "latest" mockURL3))
  else if String.eqb url mockURL3
  then Response 200 (BodyParsed (mockPage "2.0.0" "1.0.0" EmptyString))
  else Response 404 BodyReadError.

(** A registry that answers every request with 204 No Content. *)
Definition noContentRegistry (url : string) : requestOutcome :=
  Response 204 (BodyParsed {| Results := []; Next := EmptyString;
                              Count := 0 |}).

(** Byte-wise replacement. *)
Fixpoint map_bytes (f : ascii -> ascii) (s : string) : string :=
  match s with
  | EmptyString => EmptyString
  | String a s' => String (f a) (map_bytes f s')
  end.

(** The sanitization the specification describes: '/', ':' and '.' become
    '-'. *)
Definition sanitizeByte (a : ascii) : ascii :=
  if Ascii.eqb a "/" || Ascii.eqb a ":" || Ascii.eqb a "."
  then "-"%char else a.

(** Scenario D of the specification: two updates in one batch, and a push
    that fails for the service "db" only.  The outside world has no state
    of its own here. *)
Definition scenarioClock : cmd.Time :=
  {| cmd.Year := 2025; cmd.Month := 3; cmd.Day := 7; cmd.Hour := 9;
     cmd.Minute := 5; cmd.Second := 2; cmd.Nanosecond := 123456789 |}.

Definition scenarioGateways : cmd.Gateways unit :=
  {| cmd.time_Now := fun w => (scenarioClock, w);
     cmd.CreateBranchInRepo := fun _ _ w => (None, w);
     cmd.ReadFile := fun _ w => (inr "image: postgres:16.1.0"%string, w);
     cmd.WriteFile := fun _ _ w => (None, w);
     cmd.CommitAndPushChanges := fun message w =>
       if Contains message " db "
       then (Some "failed to push changes: rejected"%string, w)
       else (None, w);
     cmd.GetCurrentBranch := fun w => (inr "img-upgr/work"%string, w);
     cmd.GetDefaultBranch := fun w => (inr "main"%string, w);
     cmd.gitlab_NewClient := fun w => (None, w);
     cmd.CreateMergeRequest := fun _ _ _ _ w => (None, w);
     cmd.ctx_Done := fun w => (false, w);
     cmd.ctx_Err := "context canceled";
     cmd.GetRelativePath := fun p => p;
     cmd.filepath_Base := fun _ => "docker-compose.yml"%string;
     cmd.Format_RFC3339 := fun _ => "2025-03-07T09:05:02Z"%string |}.

Definition scenarioConfig : config.Config :=
  {| config.Verbose := false; config.Quiet := false;
     config.LogLevel := "INFO"; config.OutputFormat := "text";
     config.DryRun := false; config.ScanDir := "/tmp/repo";
     config.CreateMR := true; config.TargetBranch := "main";
     config.TempDir := "/tmp/repo"; config.ClonedRepo := true;
     config.GitLabUser := "bot"; config.GitLabToken := "token";
     config.GitLabRepo := "https://gitlab.com/group/project.git";
     config.GitLabProjectID := EmptyString;
     config.GitLabEmail := "bot@example.com";
     config.GitLabClient := config.GitLabAPIClient |}.

Definition checkUpdate (service old new : string) : check.UpdateInfo :=
  {| check.FilePath := "/tmp/repo/docker-compose.yml";
     check.ServiceName := service;
     check.OldImage := ("postgres:" ++ old)%string;
     check.NewImage := ("postgres:" ++ new)%string;
     check.Repository := "postgres";
     check.OldTag := old; check.NewTag := new |}.

Definition scanUpdate (service old new : string) : scan.UpdatedImage :=
  {| scan.ServiceName := service;
     scan.FilePath := "/tmp/repo/docker-compose.yml";
     scan.OldImage := ("postgres:" ++ old)%string;
     scan.NewImage := ("postgres:" ++ new)%string;
     scan.Repository := "postgres";
     scan.OldTag := old; scan.NewTag := new |}.

Definition emptyLog : cmd.state unit := {| cmd.world := tt; cmd.log := [] |}.

Definition isError (e : cmd.LogEntry) : bool :=
  match cmd.level e with cmd.ERROR => true | _ => false end.

(** The log entry names the service: the name is among its arguments. *)
Definition namesService (service : string) (e : cmd.LogEntry) : bool :=
  existsb (String.eqb service) (cmd.args e).


(** The formats of the entries by which the check workflow closes the
    processing of one update: the error of each stage and the success
    message. *)
Definition checkClosingFormats : list string :=
  [ "Error getting default branch: %v";
    "Error creating branch: %v";
    "Error reading file %s: %v";
    "Error writing file %s: %v";
    "Error committing changes: %v";
    "Error getting current branch: %v";
    "Error creating GitLab client: %v";
    "Error creating merge request: %v";
    "Created merge request successfully for %s" ].

Definition checkClosing (e : cmd.LogEntry) : bool :=
  existsb (String.eqb (cmd.format e)) checkClosingFormats.



(** The number of error values an error is built from. *)
Fixpoint errorSize (err : validation_rest.error) : nat :=
  match err with
  | validation_rest.errorString _ => 1
  | validation_rest.joinError errs =>
      S (fold_right (fun e n => errorSize e + n) 0 errs)
  end.

(** The registry of scenario A of the specification. *)
Definition scenarioARegistry (url : string) : requestOutcome :=
  Response 200 (BodyParsed
    {| Results := [ {| TagName := "apache-2.34.0"; FullSize := 0 |};
                    {| TagName := "apache-2.35.0"; FullSize := 0 |};
                    {| TagName := "apache-rc1"; FullSize := 0 |} ];
       Next := EmptyString; Count := 3 |}).

(** The registry of scenario B. *)
Definition scenarioBRegistry (url : string) : requestOutcome :=
  Response 200 (BodyParsed
    {| Results := [ {| TagName := "7.0.0"; FullSize := 0 |} ];
       Next := EmptyString; Count := 1 |}).

(** The texts of the errors from outside, for the scenarios. *)
Definition scenarioSemverText (versionStr : string) : string :=
  "Invalid Semantic Version".
Definition scenarioFetchText (e : fetchError) : string :=
  "registry unreachable".

(** A run of digits, not empty. *)
Definition digits (d : string) : Prop :=
  forallb isDigit d = true /\ d <> EmptyString.

(** The last byte of the string is a digit. *)
Fixpoint endsWithDigit (s : string) : bool :=
  match s with
  | EmptyString => false
  | String a EmptyString => isDigit a
  | String _ s' => endsWithDigit s'
  end.

Fixpoint countDots (s : string) : nat :=
  match s with
  | EmptyString => O
  | String a s' => (if Ascii.eqb a "." then 1 else 0) + countDots s'
  end.

(** The string form of the triplet [major.minor.patch]. *)
Definition tripletString (major minor patch : N) : string :=
  FormatUint major ++ "." ++ FormatUint minor ++ "." ++ FormatUint patch.

(* ================================================================== *)
(** ** The order of versions, stated apart from the code               *)
(* ================================================================== *)

(** One identifier of a pre-release: a number, or any other text. *)
Inductive part : Type :=
| Num (n : N)
| Alpha (s : string).

Definition partOf (s : string) : part :=
  match ParseUint s with
  | Some n => Num n
  | None => Alpha s
  end.

(** Numbers come before texts; numbers go by value, texts bytewise. *)
Definition cmpPart (a b : part) : comparison :=
  match a, b with
  | Num x, Num y => N.compare x y
  | Num _, Alpha _ => Lt
  | Alpha _, Num _ => Gt
  | Alpha s, Alpha t => String.compare s t
  end.

(** The lexicographic order of lists, a proper prefix coming first. *)
Fixpoint lexcmp {A : Type} (cmp : A -> A -> comparison) (l1 l2 : list A)
  : comparison :=
  match l1, l2 with
  | [], [] => Eq
  | [], _ :: _ => Lt
  | _ :: _, [] => Gt
  | x :: l1', y :: l2' =>
      match cmp x y with
      | Eq => lexcmp cmp l1' l2'
      | c => c
      end
  end.

Definition thenCmp (c d : comparison) : comparison :=
  match c with Eq => d | _ => c end.

(** The identifiers of a pre-release; [None] for a release. *)
Definition preKey (p : string) : option (list part) :=
  if semver.nonEmpty p then Some (map partOf (Split p ".")) else None.

(** A release comes after every pre-release of the same triplet. *)
Definition cmpPre (a b : option (list part)) : comparison :=
  match a, b with
  | None, None => Eq
  | None, Some _ => Gt
  | Some _, None => Lt
  | Some x, Some y => lexcmp cmpPart x y
  end.

(** The precedence of versions: major, minor, patch, then pre-release;
    build metadata does not count. *)
Definition cmpVersion (v o : semver.Version) : comparison :=
  thenCmp (N.compare (semver.major v) (semver.major o))
  (thenCmp (N.compare (semver.minor v) (semver.minor o))
  (thenCmp (N.compare (semver.patch v) (semver.patch o))
           (cmpPre (preKey (semver.pre v)) (preKey (semver.pre o))))).

Definition signZ (c : comparison) : Z :=
  match c with Lt => (-1)%Z | Eq => 0%Z | Gt => 1%Z end.

(** A comparison function that behaves as a total preorder. *)
Record Lawful {A : Type} (cmp : A -> A -> comparison) : Prop := {
  law_refl : forall a, cmp a a = Eq;
  law_sym : forall a b, cmp b a = CompOpp (cmp a b);
  law_trans : forall a b c, cmp a b = Lt -> cmp b c = Lt -> cmp a c = Lt;
  law_eq : forall a b c, cmp a b = Eq -> cmp a c = cmp b c
}.

(** What [NewVersion] guarantees about the pre-release it stores: every
    identifier is non-empty, and a numeric one has no leading zero. *)
Definition validPart (s : string) : Prop :=
  semver.nonEmpty s = true
  /\ (forallb isDigit s = true -> semver.leadingZero s = false).

Definition ValidVersion (v : semver.Version) : Prop :=
  semver.pre v = EmptyString
  \/ Forall validPart (Split (semver.pre v) ".").


Example parseImageString_ex1 :
  parseImageString "nginx:apache-2.34.0" = inr ("nginx", "apache-2.34.0").
Proof. reflexivity. Qed.

Example parseImageString_ex2 :
  parseImageString "host:5000/app:tag" = inr ("host", "5000/app:tag").
Proof. reflexivity. Qed.

Example extract_ex1 :
  extractVersionFromTag "apache-2.34.0" = inr ("apache-", "2.34.0").
Proof. reflexivity. Qed.

Example extract_ex2 :
  extractVersionFromTag "1.2.3.4" = inr ("1.", "2.3.4").
Proof. reflexivity. Qed.

Example ParseRepositoryName_ex1 :
  ParseRepositoryName "registry.example.com/team/app"
  = {| Namespace := "registry.example.com"; Name := "team";
       FullName := "registry.example.com/team/app" |}.
Proof. reflexivity. Qed.


(** An empty [old] is matched before the first byte and after every UTF-8
    sequence, a byte that starts no sequence being one of its own: here
    after 'a', after the two bytes of U+00E9 and after a stray 0xC3. *)
Example ReplaceAll_empty_old :
  ReplaceAll "ab" EmptyString "X" = "XaXbX"
  /\ ReplaceAll EmptyString EmptyString "X" = "X"
  /\ ReplaceAll (String "a" (String "195" (String "169" EmptyString)))
                EmptyString "-"
     = String "-" (String "a" (String "-" (String "195" (String "169"
         (String "-" EmptyString)))))
  /\ ReplaceAll (String "195" (String "a" EmptyString)) EmptyString "-"
     = String "-" (String "195" (String "-" (String "a"
         (String "-" EmptyString)))).
Proof. repeat split. Qed.

(* ================================================================== *)
(** ** Facts about the string operations                               *)
(* ================================================================== *)

Section StringFacts.

Lemma string_app_nil_r (s : string) : (s ++ EmptyString)%string = s.
Proof. induction s; simpl; congruence. Qed.

Lemma string_app_assoc (a b c : string) :
  ((a ++ b) ++ c)%string = (a ++ (b ++ c))%string.
Proof. induction a; simpl; congruence. Qed.

Lemma HasPrefix_app (p s : string) : HasPrefix (p ++ s) p = true.
Proof.
  induction p as [|a p IH]; simpl.
  - now destruct s.
  - now rewrite Ascii.eqb_refl, IH.
Qed.

Lemma HasPrefix_split (s p : string) :
  HasPrefix s p = true -> s = (p ++ drop (String.length p) s)%string.
Proof.
  revert s; induction p as [|b p IH]; intros [|a s]; simpl; try easy.
  intros H. apply andb_prop in H as [Hab Hp].
  apply Ascii.eqb_eq in Hab. subst. f_equal. now apply IH.
Qed.

(** A prefix that is there is what [TrimPrefix] removes. *)
Lemma TrimPrefix_spec (s p : string) :
  HasPrefix s p = true -> s = (p ++ TrimPrefix s p)%string.
Proof.
  intros H. unfold TrimPrefix. rewrite H. now apply HasPrefix_split.
Qed.

Lemma take_drop (n : nat) (s : string) : (take n s ++ drop n s)%string = s.
Proof.
  revert s; induction n as [|n IH]; intros [|a s]; simpl; try easy.
  now rewrite IH.
Qed.

Lemma span_app (f : ascii -> bool) (s : string) :
  (fst (span f s) ++ snd (span f s))%string = s.
Proof.
  induction s as [|a s IH]; simpl; [reflexivity|].
  destruct (f a); simpl; [|reflexivity].
  destruct (span f s); simpl in *. now rewrite IH.
Qed.

Lemma span_forallb (f : ascii -> bool) (s : string) :
  forallb f (fst (span f s)) = true.
Proof.
  induction s as [|a s IH]; simpl; [reflexivity|].
  destruct (f a) eqn:E; simpl; [|reflexivity].
  destruct (span f s); simpl in *. now rewrite E, IH.
Qed.

Lemma span_rest (f : ascii -> bool) (s : string) :
  match snd (span f s) with
  | EmptyString => True
  | String a _ => f a = false
  end.
Proof.
  induction s as [|a s IH]; simpl; [exact I|].
  destruct (f a) eqn:E; simpl; [|exact E].
  destruct (span f s); simpl in *. exact IH.
Qed.

(** A run of [f]-bytes followed by a byte that is not one is what [span]
    splits off. *)
Lemma span_run (f : ascii -> bool) (l r : string) :
  forallb f l = true ->
  match r with EmptyString => True | String a _ => f a = false end ->
  span f (l ++ r) = (l, r).
Proof.
  induction l as [|a l IH]; simpl; intros Hl Hr.
  - destruct r as [|b r]; simpl; [reflexivity|]. now rewrite Hr.
  - apply andb_prop in Hl as [Ha Hl]. rewrite Ha, IH; auto.
Qed.

(** [span] on the bytes other than [c] cuts at the first [c]. *)
Lemma span_until_byte (c : ascii) (s : string) :
  span (fun a => negb (Ascii.eqb a c)) s =
  match IndexByte s c with
  | None => (s, EmptyString)
  | Some i => (take i s, drop i s)
  end.
Proof.
  induction s as [|a s IH]; simpl; [reflexivity|].
  destruct (Ascii.eqb a c) eqn:E; simpl; [reflexivity|].
  rewrite IH. destruct (IndexByte s c); reflexivity.
Qed.

Lemma IndexByte_drop (c : ascii) (s : string) (i : nat) :
  IndexByte s c = Some i -> drop i s = String c (drop (S i) s).
Proof.
  revert i; induction s as [|a s IH]; simpl; intros i; [easy|].
  destruct (Ascii.eqb_spec a c) as [->|Hne].
  - now intros [= <-].
  - destruct (IndexByte s c) as [j|]; simpl; [|easy].
    intros [= <-]. simpl. now apply IH.
Qed.

Lemma IndexByte_take (c : ascii) (s : string) (i : nat) :
  IndexByte s c = Some i -> contains_byte c (take i s) = false.
Proof.
  unfold contains_byte.
  revert i; induction s as [|a s IH]; simpl; intros i; [easy|].
  destruct (Ascii.eqb a c) eqn:E.
  - now intros [= <-].
  - destruct (IndexByte s c) as [j|]; simpl; [|easy].
    intros [= <-]. simpl. rewrite E. simpl. now apply IH.
Qed.

Lemma IndexByte_None (c : ascii) (s : string) :
  IndexByte s c = None <-> contains_byte c s = false.
Proof.
  unfold contains_byte.
  induction s as [|a s IH]; simpl; [easy|].
  destruct (Ascii.eqb a c); simpl; [easy|].
  destruct (IndexByte s c); simpl in *; [|tauto].
  split; [easy|]. intros H. now apply IH in H.
Qed.

Lemma take_nonempty (i : nat) (s : string) (c : ascii) :
  IndexByte s c = Some (S i) -> nonempty_string (take (S i) s).
Proof.
  destruct s as [|a s]; simpl; [easy|]. intros _. exact I.
Qed.

Lemma Split_not_nil (s : string) (c : ascii) : Split s c <> [].
Proof.
  destruct s as [|a s]; simpl; [easy|].
  destruct (Ascii.eqb a c); [easy|]. now destruct (Split s c).
Qed.

(** The pieces of [Split] are the segments between the separators:
    joined again by the separator they give the string back, ... *)
Lemma Join_Split (s : string) (c : ascii) :
  Join (Split s c) (String c EmptyString) = s.
Proof.
  induction s as [|a s IH]; simpl; [reflexivity|].
  pose proof (Split_not_nil s c) as Hne.
  destruct (Split s c) as [|x xs] eqn:E; [easy|].
  destruct (Ascii.eqb_spec a c) as [->|Hac].
  - change (Join (EmptyString :: x :: xs) (String c EmptyString))
      with (String c (Join (x :: xs) (String c EmptyString))).
    now rewrite IH.
  - destruct xs as [|y ys]; simpl in *; now rewrite <- IH.
Qed.

(** ... and none of them holds the separator. *)
Lemma Split_no_sep (s : string) (c : ascii) :
  Forall (fun x => contains_byte c x = false) (Split s c).
Proof.
  unfold contains_byte.
  induction s as [|a s IH]; simpl.
  - now constructor.
  - destruct (Ascii.eqb a c) eqn:E.
    + constructor; [reflexivity|exact IH].
    + destruct (Split s c) as [|x xs]; inversion IH; subst;
        constructor; simpl; try rewrite E; simpl; auto.
Qed.

(** A string without the separator is its own single segment. *)
Lemma Split_single (s : string) (c : ascii) :
  contains_byte c s = false <-> Split s c = [s].
Proof.
  unfold contains_byte.
  induction s as [|a s IH]; simpl; [easy|].
  destruct (Ascii.eqb a c) eqn:E; simpl.
  - split; [easy|]. intros H. injection H as H1 H2.
    now apply Split_not_nil in H2.
  - split.
    + intros H. apply IH in H. now rewrite H.
    + destruct (Split s c) as [|x xs] eqn:Es.
      * now apply Split_not_nil in Es.
      * intros [= -> ->]. now apply IH.
Qed.

Lemma IndexByte_app_sep (c : ascii) (x r : string) :
  contains_byte c x = false ->
  IndexByte (x ++ String c r) c = Some (String.length x).
Proof.
  unfold contains_byte. intros H. apply negb_false_iff in H.
  induction x as [|a x IH]; simpl in *.
  - now rewrite Ascii.eqb_refl.
  - apply andb_prop in H as [Ha Hx]. apply negb_true_iff in Ha.
    rewrite Ha, (IH Hx). reflexivity.
Qed.

Lemma take_app_length (x r : string) :
  take (String.length x) (x ++ r) = x.
Proof. induction x as [|a x IH]; simpl; [now destruct r|]. now rewrite IH. Qed.

Lemma drop_app_length (x r : string) :
  drop (String.length x) (x ++ r) = r.
Proof. induction x as [|a x IH]; simpl; auto. Qed.

Lemma IndexByte_zero (c : ascii) (s : string) :
  IndexByte s c = Some O <-> HasPrefix s (String c EmptyString) = true.
Proof.
  destruct s as [|a s]; simpl; [easy|].
  destruct (Ascii.eqb a c); simpl.
  - split; [|easy]. now destruct s.
  - split; [|easy]. now destruct (IndexByte s c).
Qed.

(** Replacing a text by itself changes nothing, which is why Go's early
    return for equal [old] and [new] needs no case of its own. *)
Lemma replaceFrom_same (old : string) (s : string) :
  old <> EmptyString ->
  forall skip, replaceFrom old old skip s = drop skip s.
Proof.
  intros Hne. induction s as [|a s IH]; intros [|k]; try reflexivity.
  - cbn [replaceFrom drop]. destruct (HasPrefix (String a s) old) eqn:Hp.
    + rewrite IH. apply HasPrefix_split in Hp.
      destruct old as [|b old]; [easy|]. cbn [String.length Nat.sub] in *.
      rewrite Nat.sub_0_r. cbn [drop] in Hp. now symmetry.
    + now rewrite IH.
  - cbn [replaceFrom drop]. apply IH.
Qed.

Lemma insertFrom_nothing (s : string) :
  forall rem, insertFrom EmptyString rem s = s.
Proof.
  induction s as [|a s IH]; intros rem; [reflexivity|].
  cbn [insertFrom].
  destruct (match rem with O => runeWidth (String a s) | S _ => rem end)
    as [|[|k]]; cbn [append]; now rewrite IH.
Qed.

Lemma ReplaceAll_same (s old : string) : ReplaceAll s old old = s.
Proof.
  unfold ReplaceAll. destruct old as [|b old].
  - apply insertFrom_nothing.
  - now rewrite replaceFrom_same.
Qed.

End StringFacts.

(* ================================================================== *)
(** ** parseImageString                                                *)
(* ================================================================== *)

(** C6, the claim as stated fails: an image string with a colon, a non-empty
    part before the first colon and a non-empty part after it is still
    rejected when the part after the colon holds a newline, because [.] of
    the pattern does not match a newline. *)
Lemma parseImageString_newline_rejected :
  let image := ("a:b" ++ nl ++ "c")%string in
  parseImageString image = inl (ErrNoTagFound image)
  /\ IndexByte image ":" = Some 1%nat
  /\ take 1 image = "a"
  /\ drop 2 image = ("b" ++ nl ++ "c")%string
  /\ drop 2 image <> EmptyString.
Proof. repeat split; try reflexivity. discriminate. Qed.

(** C6 (amended): [parseImageString] cuts the image string at its first
    colon.  It returns the no-tag-found error exactly when there is no
    colon, nothing stands before the first colon, nothing stands after it,
    or what stands after it holds a newline; otherwise it returns the text
    before the first colon, which holds no colon, as the repository and
    everything after that colon as the tag. *)
Theorem parseImageString_first_colon (image : string) :
  match IndexByte image ":" with
  | None => parseImageString image = inl (ErrNoTagFound image)
  | Some i =>
      let repo := take i image in
      let tag := drop (S i) image in
      if (i =? 0)%nat || String.eqb tag EmptyString
         || contains_byte newline tag
      then parseImageString image = inl (ErrNoTagFound image)
      else parseImageString image = inr (repo, tag)
           /\ contains_byte ":" repo = false
           /\ image = (repo ++ ":" ++ tag)%string
  end.
Proof.
  unfold parseImageString, matchImageTagPattern.
  rewrite span_until_byte.
  destruct (IndexByte image ":") as [i|] eqn:Hi.
  - pose proof (IndexByte_take _ _ _ Hi) as Hrepo.
    pose proof (take_drop i image) as Hcat.
    rewrite (IndexByte_drop _ _ _ Hi) in *.
    cbv zeta.
    destruct i as [|i].
    + change (take 0 image) with EmptyString. reflexivity.
    + assert (Hnz : nonempty_string (take (S i) image)).
      { destruct image; [discriminate|exact I]. }
      set (tag := drop (S (S i)) image) in *.
      set (repo := take (S i) image) in *.
      clearbody tag repo.
      destruct repo as [|a r]; [now destruct Hnz|].
      change (S i =? 0)%nat with false.
      destruct tag as [|b t]; [reflexivity|].
      change (String.eqb (String b t) EmptyString) with false.
      unfold contains_byte. cbn [orb].
      destruct (forallb (fun a0 => negb (Ascii.eqb a0 newline)) (String b t));
        cbn [negb].
      * repeat split; auto.
      * reflexivity.
  - destruct image; reflexivity.
Qed.

(** The example of the specification: the split is at the first colon. *)
Example parseImageString_host_port :
  parseImageString "host:5000/app:tag" = inr ("host", "5000/app:tag").
Proof. reflexivity. Qed.

(* ================================================================== *)
(** ** ParseRepositoryName                                             *)
(* ================================================================== *)

(** C10, the claim as stated fails: a repository string of three segments
    whose first segment holds a colon is cut at that colon first, so the
    namespace is "library" rather than the first segment, and [FullName] is
    not the whole string. *)
Lemma ParseRepositoryName_colon_cut :
  Split "host:5000/team/app" "/" = ["host:5000"; "team"; "app"]
  /\ ParseRepositoryName "host:5000/team/app"
     = {| Namespace := "library"; Name := "host";
          FullName := "library/host" |}.
Proof. split; reflexivity. Qed.

Lemma removeTag_no_colon (repo : string) :
  contains_byte ":" repo = false -> removeTag repo = repo.
Proof.
  intros H. apply IndexByte_None in H. unfold removeTag. now rewrite H.
Qed.

(** The cut made by [ParseRepositoryName] is the one described. *)
Lemma removeTag_cut (repo left : string) :
  cutAtFirstColon repo left -> removeTag repo = left.
Proof.
  intros [Hnone | Hlead | head rest Hne Hc ->].
  - now apply removeTag_no_colon.
  - apply (IndexByte_zero ":") in Hlead. unfold removeTag. now rewrite Hlead.
  - unfold removeTag. cbn [append].
    rewrite (IndexByte_app_sep ":" head rest Hc).
    destruct head as [|a head]; [easy|].
    cbn [String.length].
    change (S (String.length head)) with (String.length (String a head)).
    apply take_app_length.
Qed.

Lemma removeTag_is_cut (repo : string) :
  cutAtFirstColon repo (removeTag repo).
Proof.
  unfold removeTag.
  destruct (IndexByte repo ":") as [[|i]|] eqn:E.
  - apply cut_leading_colon. now apply (IndexByte_zero ":").
  - apply (cut_before_colon repo _ (drop (S (S i)) repo)).
    + pose proof (take_nonempty _ _ _ E) as Hn. intros Heq.
      rewrite Heq in Hn. exact Hn.
    + now apply IndexByte_take.
    + rewrite <- (take_drop (S i) repo) at 1.
      now rewrite (IndexByte_drop _ _ _ E).
  - apply cut_no_colon. now apply IndexByte_None.
Qed.

(** C10 (amended): [ParseRepositoryName] first cuts the string at its first
    colon, when that colon is not the first byte: every string has such a
    cut, and whatever is left by it is what the result is made from.  If
    what is left has two or more '/'-separated segments, [Namespace] is the
    first of them, [Name] the second only, [FullName] all of what is left,
    and the address of the first page names just those two segments; if it
    has no slash, [Namespace] is "library".  A string without a colon, or
    with a colon as its first byte, is left whole. *)
Theorem ParseRepositoryName_segments (c : Client) (repo : string) :
  (exists left, cutAtFirstColon repo left)
  /\ forall left, cutAtFirstColon repo left ->
       (forall x y rest, Split left "/" = x :: y :: rest ->
          ParseRepositoryName repo
          = {| Namespace := x; Name := y; FullName := left |}
          /\ tagsURL c repo
             = (baseURL c ++ "/" ++ x ++ "/" ++ y ++ "/tags?page_size="
                  ++ FormatInt (pageSize c))%string)
       /\ (contains_byte "/" left = false ->
           ParseRepositoryName repo
           = {| Namespace := "library"; Name := left;
                FullName := ("library/" ++ left)%string |}).
Proof.
  split.
  - exists (removeTag repo). apply removeTag_is_cut.
  - intros left Hcut. apply removeTag_cut in Hcut. split.
    + intros x y rest H. unfold tagsURL, ParseRepositoryName.
      rewrite Hcut, H. split; reflexivity.
    + intros H. apply Split_single in H. unfold ParseRepositoryName.
      now rewrite Hcut, H.
Qed.

(** The theorem at the example of the claim, at a bare name, at a name
    with a tag and at a name that starts with a colon. *)
Lemma ParseRepositoryName_segments_witness :
  ParseRepositoryName "registry.example.com/team/app"
  = {| Namespace := "registry.example.com"; Name := "team";
       FullName := "registry.example.com/team/app" |}
  /\ ParseRepositoryName "nginx"
     = {| Namespace := "library"; Name := "nginx";
          FullName := "library/nginx" |}
  /\ ParseRepositoryName "bitnami/redis:7.0.0"
     = {| Namespace := "bitnami"; Name := "redis";
          FullName := "bitnami/redis" |}
  /\ ParseRepositoryName ":80/app"
     = {| Namespace := ":80"; Name := "app"; FullName := ":80/app" |}.
Proof.
  pose (c := NewClient (fun _ => DoError)).
  destruct (ParseRepositoryName_segments c "registry.example.com/team/app")
    as [_ H1].
  destruct (ParseRepositoryName_segments c "nginx") as [_ H2].
  destruct (ParseRepositoryName_segments c "bitnami/redis:7.0.0")
    as [_ H3].
  destruct (ParseRepositoryName_segments c ":80/app") as [_ H4].
  assert (C1 : cutAtFirstColon "registry.example.com/team/app"
                 "registry.example.com/team/app")
    by (apply cut_no_colon; reflexivity).
  assert (C2 : cutAtFirstColon "nginx" "nginx")
    by (apply cut_no_colon; reflexivity).
  assert (C3 : cutAtFirstColon "bitnami/redis:7.0.0" "bitnami/redis")
    by (apply (cut_before_colon _ "bitnami/redis" "7.0.0");
        [discriminate | reflexivity | reflexivity]).
  assert (C4 : cutAtFirstColon ":80/app" ":80/app")
    by (apply cut_leading_colon; reflexivity).
  split; [|split; [|split]].
  - exact (proj1 (proj1 (H1 _ C1) _ _ _ eq_refl)).
  - exact (proj2 (H2 _ C2) eq_refl).
  - exact (proj1 (proj1 (H3 _ C3) _ _ _ eq_refl)).
  - exact (proj1 (proj1 (H4 _ C4) _ _ _ eq_refl)).
Defined.

(* ================================================================== *)
(** ** ValidateGitLab                                                  *)
(* ================================================================== *)

(** C9: [ValidateGitLab] returns no error whenever [CreateMR] is false,
    whatever the credentials are (all four may be empty): neither the
    required-variable check nor the repository address check is made in
    that case. *)
Theorem ValidateGitLab_without_CreateMR
        (rangeOrder : list (string * string) -> list (string * string))
        (url_Parse : string -> string + (string * string))
        (c : config.Config) :
  config.CreateMR c = false ->
  config.ValidateGitLab rangeOrder url_Parse c = None.
Proof.
  intros H. unfold config.ValidateGitLab. now rewrite H.
Qed.

(** The theorem at the default configuration, where every credential is
    empty. *)
Lemma ValidateGitLab_without_CreateMR_witness :
  config.GitLabUser config.New = EmptyString
  /\ config.GitLabRepo config.New = EmptyString
  /\ config.ValidateGitLab (fun m => m) (fun _ => inl "parse error"%string)
       config.New = None.
Proof.
  split; [reflexivity|]. split; [reflexivity|].
  apply (ValidateGitLab_without_CreateMR (fun m => m)
           (fun _ => inl "parse error"%string) config.New).
  reflexivity.
Defined.

(** With [CreateMR] set the checks are made: a missing credential is an
    error, whichever order the map is ranged over in. *)
Lemma ValidateGitLab_with_CreateMR_missing
      (rangeOrder : list (string * string) -> list (string * string))
      (url_Parse : string -> string + (string * string))
      (c : config.Config) :
  (forall m, Permutation m (rangeOrder m)) ->
  config.CreateMR c = true ->
  config.GitLabToken c = EmptyString ->
  config.ValidateGitLab rangeOrder url_Parse c <> None.
Proof.
  intros Hperm Hmr Htok. unfold config.ValidateGitLab. rewrite Hmr.
  assert (Hin : In config.EnvGitLabToken
                   (validation.GetMissingVars rangeOrder
                      (config.requiredVars c))).
  { unfold validation.GetMissingVars.
    apply in_map_iff. exists (config.EnvGitLabToken, config.GitLabToken c).
    split; [reflexivity|]. apply filter_In. split.
    - eapply Permutation_in; [apply Hperm|]. simpl. tauto.
    - simpl. now rewrite Htok. }
  destruct (validation.GetMissingVars rangeOrder (config.requiredVars c))
    as [|m ms]; [destruct Hin|].
  simpl. destruct (validation.ValidateURL url_Parse (config.GitLabRepo c));
    discriminate.
Qed.

(* ================================================================== *)
(** ** FetchAllTags                                                    *)
(* ================================================================== *)

Lemma fetchLoop_done (c : Client) (ctxDone : nat -> bool) (fuel : nat)
      (st : fetchState) :
  fetchLoop c ctxDone fuel EmptyString st = (Some (inr (tags st)), st).
Proof. destruct fuel; reflexivity. Qed.

Lemma afterPages_nil (st : fetchState) (url : string) :
  afterPages st url [] = st.
Proof.
  destruct st as [t n r]. unfold afterPages, chainTags. simpl.
  now rewrite !app_nil_r, Nat.add_0_r.
Qed.

Lemma afterPages_cons (st : fetchState) (url : string)
      (p : DockerHubResponse) (pages : list DockerHubResponse) :
  afterPages st url (p :: pages)
  = afterPages {| tags := tags st ++ pageTags p;
                  pageCount := S (pageCount st);
                  requested := requested st ++ [url] |} (Next p) pages.
Proof.
  unfold afterPages, chainTags. simpl.
  rewrite <- !app_assoc. simpl. f_equal. lia.
Qed.

(** The loop walks a chain of pages, one unit of fuel per page. *)
Lemma fetchLoop_pagesUpTo (c : Client) (ctxDone : nat -> bool)
      (url url' : string) (pages : list DockerHubResponse) :
  (forall n, ctxDone n = false) ->
  pagesUpTo c url pages url' ->
  forall (fuel : nat) (st : fetchState),
    fetchLoop c ctxDone (List.length pages + fuel) url st
    = fetchLoop c ctxDone fuel url' (afterPages st url pages).
Proof.
  intros Hctx H. induction H as [url|url p pages url' Hne Hresp _ IH];
    intros fuel st.
  - now rewrite afterPages_nil.
  - rewrite afterPages_cons. simpl.
    destruct (String.eqb_spec url EmptyString) as [->|_]; [easy|].
    rewrite Hctx, Hresp. simpl. apply IH.
Qed.

(** C4: when the registry serves a chain of pages whose last page has an
    empty next pointer, [FetchAllTags] returns the tag names of all the
    pages, page after page and in response order within a page, nothing
    removed and nothing reordered; it asks for each page once. *)
Theorem FetchAllTags_pagination (c : Client) (repo : string)
        (pages : list DockerHubResponse) (fuel : nat) :
  pagesUpTo c (tagsURL c repo) pages EmptyString ->
  (List.length pages <= fuel)%nat ->
  FetchAllTags c fuel repo = Some (inr (chainTags pages))
  /\ requested (snd (FetchAllTagsWithContext c Background fuel repo))
     = chainURLs (tagsURL c repo) pages.
Proof.
  intros Hchain Hfuel.
  unfold FetchAllTags, FetchAllTagsWithContext.
  replace fuel with (List.length pages + (fuel - List.length pages))%nat
    by lia.
  rewrite (fetchLoop_pagesUpTo c Background _ _ _ (fun _ => eq_refl) Hchain).
  rewrite fetchLoop_done. split; reflexivity.
Qed.

Lemma mockRegistry_chain :
  pagesUpTo (NewClient mockRegistry) mockURL1
    [ mockPage "1.0.0" "1.1.0" mockURL2;
      mockPage "1.2.0" "latest" mockURL3;
      mockPage "2.0.0" "1.0.0" EmptyString ] EmptyString.
Proof.
  repeat (apply pagesUpTo_cons; [discriminate|reflexivity|]).
  apply pagesUpTo_nil.
Qed.

(** The theorem at the mocked registry: three pages of two tags give the
    six tags in order, a repeated tag and an unsorted page included. *)
Lemma FetchAllTags_pagination_witness :
  FetchAllTags (NewClient mockRegistry) 3 "nginx"
  = Some (inr ["1.0.0"; "1.1.0"; "1.2.0"; "latest"; "2.0.0"; "1.0.0"]).
Proof.
  apply (FetchAllTags_pagination (NewClient mockRegistry) "nginx"
           [ mockPage "1.0.0" "1.1.0" mockURL2;
             mockPage "1.2.0" "latest" mockURL3;
             mockPage "2.0.0" "1.0.0" EmptyString ] 3).
  - exact mockRegistry_chain.
  - simpl. lia.
Defined.

(** C5, the claim as stated fails: 204 is a 2xx status, and a page answered
    with it makes the fetch fail with the status error. *)
Lemma FetchAllTags_204_is_an_error :
  (200 <= 204 < 300)%Z
  /\ FetchAllTags (NewClient noContentRegistry) 1 "nginx"
     = Some (inl (ErrUnexpectedStatus 204)).
Proof. split; [lia|reflexivity]. Qed.

(** C5 (amended): a page answered with a status other than 200, and so in
    particular with any non-2xx status, makes the whole fetch fail with the
    error that carries the status code, the failing address having been
    requested once and nothing after it; a page answered with 200 causes no
    status error: depending on its body the fetch fails with a read or
    decode error or goes on to the next page. *)
Theorem FetchAllTags_status (c : Client) (repo : string)
        (pages : list DockerHubResponse) (url : string) (code : Z)
        (body : bodyOutcome) (fuel : nat) :
  pagesUpTo c (tagsURL c repo) pages url ->
  url <> EmptyString ->
  httpClient c url = Response code body ->
  let st := afterPages initialState (tagsURL c repo) pages in
  let st' := {| tags := tags st; pageCount := S (pageCount st);
                requested := requested st ++ [url] |} in
  (code <> StatusOK ->
     FetchAllTagsWithContext c Background (List.length pages + S fuel) repo
     = (Some (inl (ErrUnexpectedStatus code)), st'))
  /\ (code = StatusOK ->
     FetchAllTagsWithContext c Background (List.length pages + S fuel) repo
     = match body with
       | BodyReadError => (Some (inl ErrReadingResponse), st')
       | BodyBadJSON => (Some (inl ErrJSONParse), st')
       | BodyParsed parsed =>
           fetchLoop c Background fuel (Next parsed)
             {| tags := tags st ++ pageTags parsed;
                pageCount := S (pageCount st);
                requested := requested st ++ [url] |}
       end).
Proof.
  intros Hchain Hne Hresp. cbv zeta.
  unfold FetchAllTagsWithContext.
  rewrite (fetchLoop_pagesUpTo c Background _ _ _ (fun _ => eq_refl) Hchain).
  simpl fetchLoop.
  destruct (String.eqb_spec url EmptyString) as [->|_]; [easy|].
  rewrite Hresp. unfold Background at 1 3.
  split; intros Hcode.
  - apply Z.eqb_neq in Hcode. now rewrite Hcode.
  - subst code. rewrite Z.eqb_refl. simpl. now destruct body.
Qed.

(** The theorem at the mocked registry: its fourth address is answered
    with 404 after three good pages. *)
Lemma FetchAllTags_status_witness :
  FetchAllTags
    (NewClient (fun url => if String.eqb url mockURL3
                           then Response 404 BodyReadError
                           else mockRegistry url)) 3 "nginx"
  = Some (inl (ErrUnexpectedStatus 404)).
Proof.
  set (c := NewClient (fun url => if String.eqb url mockURL3
                                  then Response 404 BodyReadError
                                  else mockRegistry url)).
  assert (Hchain : pagesUpTo c (tagsURL c "nginx")
                     [ mockPage "1.0.0" "1.1.0" mockURL2;
                       mockPage "1.2.0" "latest" mockURL3 ] mockURL3).
  { repeat (apply pagesUpTo_cons; [discriminate|reflexivity|]).
    apply pagesUpTo_nil. }
  destruct (FetchAllTags_status c "nginx" _ mockURL3 404 BodyReadError 0
              Hchain ltac:(discriminate) eq_refl) as [H _].
  unfold FetchAllTags.
  change 3%nat with (List.length [ mockPage "1.0.0" "1.1.0" mockURL2;
                         mockPage "1.2.0" "latest" mockURL3 ] + 1)%nat.
  rewrite H; [reflexivity|discriminate].
Defined.

(** Every status error of the loop comes from a response to the address
    requested last, and its code is never 200. *)
Lemma fetchLoop_status_error_origin (c : Client) (ctxDone : nat -> bool)
      (fuel : nat) :
  forall (url : string) (st : fetchState) (code : Z),
    fst (fetchLoop c ctxDone fuel url st)
    = Some (inl (ErrUnexpectedStatus code)) ->
    code <> StatusOK
    /\ exists u body,
         httpClient c u = Response code body
         /\ exists before,
              requested (snd (fetchLoop c ctxDone fuel url st))
              = before ++ [u].
Proof.
  induction fuel as [|fuel IH]; intros url st code; simpl.
  - destruct (String.eqb url EmptyString); simpl; discriminate.
  - destruct (String.eqb url EmptyString); simpl; [discriminate|].
    destruct (ctxDone (pageCount st)); simpl; [discriminate|].
    destruct (httpClient c url) as [| |code' body] eqn:Hresp; simpl;
      try discriminate.
    destruct (Z.eqb_spec code' StatusOK) as [->|Hcode]; simpl.
    + destruct body; simpl; try discriminate. apply IH.
    + intros [= <-]. split; [assumption|].
      exists url, body. split; [assumption|]. now exists (requested st).
Qed.

(* ================================================================== *)
(** ** Branch names                                                    *)
(* ================================================================== *)

Lemma HasPrefix_empty (s : string) : HasPrefix s EmptyString = true.
Proof. now destruct s. Qed.

(** Replacing a one-byte text by a one-byte text works byte by byte. *)
Lemma ReplaceAll_byte (c d : ascii) (s : string) :
  ReplaceAll s (String c EmptyString) (String d EmptyString)
  = map_bytes (fun a => if Ascii.eqb a c then d else a) s.
Proof.
  unfold ReplaceAll.
  induction s as [|a s IH]; [reflexivity|].
  cbn [replaceFrom map_bytes HasPrefix String.length Nat.sub].
  rewrite HasPrefix_empty, andb_true_r.
  destruct (Ascii.eqb a c); cbn; now rewrite IH.
Qed.

Lemma map_bytes_compose (f g : ascii -> ascii) (s : string) :
  map_bytes g (map_bytes f s) = map_bytes (fun a => g (f a)) s.
Proof. induction s; simpl; congruence. Qed.

Lemma map_bytes_ext (f g : ascii -> ascii) (s : string) :
  (forall a, f a = g a) -> map_bytes f s = map_bytes g s.
Proof. intros H. induction s; simpl; congruence. Qed.

(** [sanitizeBranchName] turns every '/', ':' and '.' into '-' and leaves
    the other bytes alone. *)
Lemma sanitizeBranchName_spec (name : string) :
  scan.sanitizeBranchName name = map_bytes sanitizeByte name.
Proof.
  unfold scan.sanitizeBranchName.
  rewrite !ReplaceAll_byte, !map_bytes_compose.
  apply map_bytes_ext. intros a. unfold sanitizeByte.
  destruct (Ascii.eqb_spec a "/") as [->|H1]; [reflexivity|].
  destruct (Ascii.eqb_spec a ":") as [->|H2]; [reflexivity|].
  reflexivity.
Qed.

(** The scan command names the branch as the specification says. *)
Lemma scan_branchName_spec (now : cmd.Time) (serviceName : string) :
  scan.branchNameAt now serviceName
  = ("img-upgr/" ++ map_bytes sanitizeByte serviceName ++ "-"
       ++ cmd.Format_20060102_150405 now)%string.
Proof.
  unfold scan.branchNameAt. now rewrite sanitizeBranchName_spec.
Qed.

(** The check command replaces the slashes only. *)
Lemma check_branchName_spec (now : cmd.Time) (serviceName : string) :
  check.branchNameAt now serviceName
  = ("img-upgr/"
       ++ map_bytes (fun a => if Ascii.eqb a "/" then "-"%char else a)
                    serviceName
       ++ "-" ++ cmd.Format_20060102_150405 now)%string.
Proof.
  unfold check.branchNameAt. now rewrite ReplaceAll_byte.
Qed.

(** The timestamp has second resolution: it does not depend on the
    fraction of the second. *)
Lemma timestamp_second_resolution (t t' : cmd.Time) :
  cmd.Year t = cmd.Year t' -> cmd.Month t = cmd.Month t' ->
  cmd.Day t = cmd.Day t' -> cmd.Hour t = cmd.Hour t' ->
  cmd.Minute t = cmd.Minute t' -> cmd.Second t = cmd.Second t' ->
  cmd.Format_20060102_150405 t = cmd.Format_20060102_150405 t'.
Proof.
  intros H1 H2 H3 H4 H5 H6. unfold cmd.Format_20060102_150405.
  now rewrite H1, H2, H3, H4, H5, H6.
Qed.

Example timestamp_example :
  cmd.Format_20060102_150405 scenarioClock = "20250307-090502".
Proof. reflexivity. Qed.

(** C7, where the code departs from the claim: for the service name
    "my.app:v1/x" the check command derives a branch name in which only the
    slash is replaced, while the scan command derives the name the claim
    describes. *)
Theorem check_branchName_keeps_colon_and_dot :
  check.branchNameAt scenarioClock "my.app:v1/x"
  = "img-upgr/my.app:v1-x-20250307-090502"
  /\ scan.branchNameAt scenarioClock "my.app:v1/x"
     = "img-upgr/my-app-v1-x-20250307-090502"
  /\ map_bytes sanitizeByte "my.app:v1/x" = "my-app-v1-x".
Proof. repeat split; reflexivity. Qed.

(* ================================================================== *)
(** ** The merge-request workflows                                     *)
(* ================================================================== *)

(** Taking apart every operation whose outcome the workflow branches on. *)
Ltac run_workflow :=
  unfold cmd.PrintInfo, cmd.bind, cmd.ret, cmd.lift, cmd.logf;
  repeat (cbv beta; cbn [cmd.world cmd.log fst snd];
          match goal with
          | |- context [match ?x with _ => _ end] =>
              lazymatch x with
              | context [match _ with _ => _ end] => fail
              | _ => destruct x eqn:?
              end
          end).

Ltac close_log :=
  cbv beta; cbn [cmd.world cmd.log fst snd];
  rewrite <- ?app_assoc;
  eexists; split; [reflexivity|reflexivity].

Section Workflows.
Variable World : Type.
Variable G : cmd.Gateways World.
Variable cfg : config.Config.



(** One update of the check workflow writes exactly one entry with a
    closing format: the error of a stage, or the success message. *)
Lemma check_update_log (u : check.UpdateInfo) (st : cmd.state World) :
  exists new,
    cmd.log (snd (check.processUpdate World G u st)) = cmd.log st ++ new
    /\ List.length (filter checkClosing new) = 1%nat.
Proof.
  unfold check.processUpdate, check.formatMergeRequestDescription.
  run_workflow; close_log.
Qed.

(** Unless the context is cancelled, the check workflow goes through
    every update, one closing entry each: no failure ends the batch. *)
Lemma check_processes_every_update (updates : list check.UpdateInfo) :
  (forall w, cmd.ctx_Done G w = (false, w)) ->
  forall st : cmd.state World,
  exists new,
    cmd.log (snd (check.createMergeRequestsForUpdates World G updates st))
    = cmd.log st ++ new
    /\ List.length (filter checkClosing new) = List.length updates
    /\ fst (check.createMergeRequestsForUpdates World G updates st) = None.
Proof.
  intros Hctx.
  induction updates as [|u rest IH]; intros st.
  - exists []. simpl. now rewrite app_nil_r.
  - cbn [check.createMergeRequestsForUpdates].
    unfold cmd.bind, cmd.lift. rewrite Hctx. cbv beta iota.
    match goal with
    | |- context [check.processUpdate World G u ?s] =>
        destruct (check_update_log u s) as [new1 [Hlog1 Hone]];
        destruct (check.processUpdate World G u s) as [[] st1] eqn:Hrun
    end.
    cbn [snd cmd.log] in Hlog1.
    destruct (IH st1) as [new2 [Hlog2 [Hlen Hres]]].
    exists (new1 ++ new2). split; [|split].
    + now rewrite Hlog2, Hlog1, app_assoc.
    + rewrite filter_app, length_app, Hone, Hlen. reflexivity.
    + exact Hres.
Qed.

End Workflows.

(** C8, where the code departs from the claim (scenario D): in the check
    workflow the push fails for "db" and succeeds for "cache".  The batch
    goes on to "cache", but the one error entry written for "db" does not
    name the service; the scan workflow, on the same batch, names it. *)
Theorem check_failure_logged_without_service :
  let updates := [checkUpdate "db" "16.1.0" "16.2.0";
                  checkUpdate "cache" "7.0.0" "7.2.0"] in
  let run := check.createMergeRequestsForUpdates unit scenarioGateways
               updates emptyLog in
  let scanRun := scan.createMergeRequests unit scenarioGateways
                   scenarioConfig
                   [scanUpdate "db" "16.1.0" "16.2.0";
                    scanUpdate "cache" "7.0.0" "7.2.0"] emptyLog in
  fst run = None
  /\ filter isError (cmd.log (snd run))
     = [ {| cmd.level := cmd.ERROR;
            cmd.format := "Error committing changes: %v";
            cmd.args := ["failed to push changes: rejected"] |} ]
  /\ List.forallb (fun e => negb (namesService "db" e))
             (filter isError (cmd.log (snd run))) = true
  /\ In {| cmd.level := cmd.INFO;
           cmd.format := "Created merge request successfully for %s";
           cmd.args := ["cache"] |} (cmd.log (snd run))
  /\ filter isError (cmd.log (snd scanRun))
     = [ {| cmd.level := cmd.ERROR;
            cmd.format := "Failed to create merge request for %s: %v";
            cmd.args := ["db";
              "failed to commit changes: failed to push changes: rejected"]
         |} ].
Proof.
  cbv zeta. split; [reflexivity|]. split; [reflexivity|].
  split; [reflexivity|]. split; [|reflexivity].
  vm_compute. tauto.
Qed.

(* ================================================================== *)
(** ** findMatchingVersions                                            *)
(* ================================================================== *)

(** C1, the claim as stated fails: with the prefix "apache-", the remainders
    "2.35.0-rc1" (a pre-release suffix) and "2" (one numeric component) are
    no dotted triplets, yet [semver.NewVersion] accepts them and the tags
    are selected, whatever the setting of the semver module. *)
Lemma findMatchingVersions_beyond_triplets :
  isTriplet (TrimPrefix "apache-2.35.0-rc1" "apache-") = false
  /\ isTriplet (TrimPrefix "apache-2" "apache-") = false
  /\ map FullTag (findMatchingVersions true
                    ["apache-2.35.0-rc1"; "apache-2"] "apache-")
     = ["apache-2.35.0-rc1"; "apache-2"]
  /\ map FullTag (findMatchingVersions false
                    ["apache-2.35.0-rc1"; "apache-2"] "apache-")
     = ["apache-2.35.0-rc1"; "apache-2"].
Proof. repeat split; reflexivity. Qed.

(** C1 (amended): a tag is selected, with the version [v], if and only if
    it is one of the registry tags, has the prefix as a literal prefix, and
    [semver.NewVersion] parses the remainder after the prefix to [v].  That
    parser accepts more than plain triplets: a leading 'v', fewer than
    three numeric components, a pre-release, build metadata. *)
Theorem findMatchingVersions_spec (CoerceNewVersion : bool)
        (tags : list string) (prefix tag : string) (v : semver.Version) :
  In {| FullTag := tag; Version := v |}
     (findMatchingVersions CoerceNewVersion tags prefix)
  <-> In tag tags
      /\ HasPrefix tag prefix = true
      /\ semver.NewVersion CoerceNewVersion (TrimPrefix tag prefix) = Some v.
Proof.
  induction tags as [|t rest IH]; simpl.
  - tauto.
  - destruct (HasPrefix t prefix) eqn:Hp.
    + destruct (semver.NewVersion CoerceNewVersion (TrimPrefix t prefix))
        as [w|] eqn:Hv; simpl; rewrite IH; split.
      * intros [[= -> ->]|H]; [auto|tauto].
      * intros [[->|H] [H1 H2]]; [left|right; auto].
        rewrite Hv in H2. now injection H2 as ->.
      * tauto.
      * intros [[->|H] [H1 H2]]; [congruence|auto].
    + rewrite IH. split; [tauto|].
      intros [[->|H] [H1 H2]]; [congruence|auto].
Qed.

(** The selected tags keep the order of the registry's answer. *)
Lemma findMatchingVersions_order (CoerceNewVersion : bool)
      (tags : list string) (prefix : string) :
  map FullTag (findMatchingVersions CoerceNewVersion tags prefix)
  = filter (fun tag =>
              HasPrefix tag prefix
              && match semver.NewVersion CoerceNewVersion
                         (TrimPrefix tag prefix) with
                 | Some _ => true
                 | None => false
                 end) tags.
Proof.
  induction tags as [|t rest IH]; simpl; [reflexivity|].
  destruct (HasPrefix t prefix); simpl; [|exact IH].
  destruct (semver.NewVersion CoerceNewVersion (TrimPrefix t prefix));
    simpl; now rewrite IH.
Qed.

(** Prefix fidelity. *)
Example prefix_fidelity (CoerceNewVersion : bool) :
  findMatchingVersions CoerceNewVersion ["foo-2.0.0"] "bar-" = []
  /\ map FullTag (findMatchingVersions CoerceNewVersion ["foo2.0.0"] "foo")
     = ["foo2.0.0"].
Proof. destruct CoerceNewVersion; split; reflexivity. Qed.

(* ================================================================== *)
(** ** The round trip of a tag                                         *)
(* ================================================================== *)

(** C2, the claim as stated fails: the tag "v01.2.3" is of the form prefix
    plus triplet (prefix "v0", version 1.2.3) and is accepted by the tag
    parser, which extracts "v" and "01.2.3"; the coercing parser reads
    "01.2.3" as version 1.2.3, whose string form is "1.2.3", and "v1.2.3" is
    not the tag. *)
Lemma roundtrip_fails_with_leading_zero :
  ("v0" ++ FormatUint 1 ++ "." ++ FormatUint 2 ++ "." ++ FormatUint 3)%string
  = "v01.2.3"
  /\ extractVersionFromTag "v01.2.3" = inr ("v", "01.2.3")
  /\ option_map semver.String_ (semver.NewVersion true "01.2.3")
     = Some "1.2.3"
  /\ ("v" ++ "1.2.3")%string <> "v01.2.3".
Proof. repeat split; try reflexivity. discriminate. Qed.

Lemma matchSemverTagPattern_sound (tag prefix versionStr : string) :
  matchSemverTagPattern tag = Some (prefix, versionStr) ->
  tag = (prefix ++ versionStr)%string /\ isTriplet versionStr = true.
Proof.
  revert prefix. induction tag as [|a tag IH]; intros prefix.
  - discriminate.
  - cbn [matchSemverTagPattern].
    destruct (isTriplet (String a tag)) eqn:E.
    + intros [= <- <-]. auto.
    + destruct (Ascii.eqb a newline); [discriminate|].
      destruct (matchSemverTagPattern tag) as [[p v]|]; [|discriminate].
      intros [= <- <-]. destruct (IH p eq_refl) as [-> Hv]. auto.
Qed.

Lemma span_fst_snd (f : ascii -> bool) (s l r : string) :
  span f s = (l, r) ->
  s = (l ++ r)%string /\ forallb f l = true
  /\ match r with EmptyString => True | String a _ => f a = false end.
Proof.
  intros H. pose proof (span_app f s) as H1.
  pose proof (span_forallb f s) as H2. pose proof (span_rest f s) as H3.
  rewrite H in *. simpl in *. auto.
Qed.

(** What [isTriplet] accepts. *)
Lemma isTriplet_shape (s : string) :
  isTriplet s = true ->
  exists a b c, s = (a ++ "." ++ b ++ "." ++ c)%string
                /\ digits a /\ digits b /\ digits c.
Proof.
  unfold isTriplet.
  destruct (span isDigit s) as [a r1] eqn:E1.
  destruct a as [|a0 a]; [discriminate|].
  destruct r1 as [|x r1]; [discriminate|].
  destruct (Ascii.eqb_spec x ".") as [->|Hx].
  2:{ destruct x as [[] [] [] [] [] [] [] []]; try discriminate.
      now destruct Hx. }
  destruct (span isDigit r1) as [b r2] eqn:E2.
  destruct b as [|b0 b]; [discriminate|].
  destruct r2 as [|y r2]; [discriminate|].
  destruct (Ascii.eqb_spec y ".") as [->|Hy].
  2:{ destruct y as [[] [] [] [] [] [] [] []]; try discriminate.
      now destruct Hy. }
  destruct (span isDigit r2) as [c r3] eqn:E3.
  destruct c as [|c0 c]; [discriminate|].
  destruct r3; [|discriminate]. intros _.
  apply span_fst_snd in E1 as [-> [Ha _]].
  apply span_fst_snd in E2 as [-> [Hb _]].
  apply span_fst_snd in E3 as [-> [Hc _]].
  exists (String a0 a), (String b0 b), (String c0 c).
  rewrite string_app_nil_r.
  repeat split; try assumption; try discriminate.
Qed.

(** Printing what [ParseUint] read gives the digits back, unless they
    start with a superfluous zero. *)
Lemma unorm_no_leading_zero (d : string) (u : Decimal.uint) :
  NilEmpty.uint_of_string d = Some u ->
  d <> EmptyString ->
  semver.leadingZero d = false ->
  Decimal.unorm u = u /\ u <> Decimal.Nil.
Proof.
  destruct d as [|a d]; [easy|]. intros H _ Hz.
  simpl in H. destruct (NilEmpty.uint_of_string d) as [u'|] eqn:E;
    [|discriminate].
  apply uint_of_char_spec in H.
  destruct H as [[-> ->]|H].
  - destruct d as [|b d]; [|discriminate].
    injection E as <-. split; [reflexivity|discriminate].
  - repeat (destruct H as [[_ ->]|H]; [split; [reflexivity|discriminate]|]).
    destruct H as [_ ->]. split; [reflexivity|discriminate].
Qed.

Lemma FormatUint_ParseUint (d : string) (n : N) :
  ParseUint d = Some n ->
  semver.leadingZero d = false ->
  FormatUint n = d.
Proof.
  unfold ParseUint, FormatUint.
  destruct d as [|a d]; [discriminate|].
  destruct (forallb isDigit (String a d)); [|discriminate].
  destruct (NilEmpty.uint_of_string (String a d)) as [u|] eqn:E;
    [|discriminate].
  destruct (N.of_uint u <=? MaxUint64)%N; [|discriminate].
  intros [= <-] Hz.
  destruct (unorm_no_leading_zero _ _ E ltac:(discriminate) Hz) as [Hn Hnil].
  rewrite DecimalN.Unsigned.to_of, Hn.
  apply NilEmpty.sus in E.
  destruct u; [now destruct Hnil| | | | | | | | | |]; exact E.
Qed.

Lemma digits_not_v (d : string) :
  digits d -> match d with String "v" s' => s' | _ => d end = d.
Proof.
  intros [H _]. destruct d as [|a d]; [reflexivity|].
  simpl in H. apply andb_prop in H as [H _].
  destruct a as [[] [] [] [] [] [] [] []]; try reflexivity; discriminate.
Qed.

Lemma digits_nonEmpty (d : string) : digits d -> semver.nonEmpty d = true.
Proof. intros [_ H]. now destruct d. Qed.

Lemma span_digits_dot (d r : string) :
  digits d -> span isDigit (d ++ String "." r) = (d, String "." r).
Proof. intros [H _]. now apply span_run. Qed.

Lemma span_digits_end (d : string) :
  digits d -> span isDigit d = (d, EmptyString).
Proof.
  intros [H _]. rewrite <- (string_app_nil_r d) at 1. now apply span_run.
Qed.

(** [NewVersion] on a dotted triplet of digit runs. *)
Lemma NewVersion_triplet (CoerceNewVersion : bool) (a b c : string) :
  digits a -> digits b -> digits c ->
  semver.NewVersion CoerceNewVersion (a ++ "." ++ b ++ "." ++ c)
  = if negb CoerceNewVersion
       && (semver.leadingZero a || semver.leadingZero b
           || semver.leadingZero c)
    then None
    else match ParseUint a, ParseUint b, ParseUint c with
         | Some x, Some y, Some z =>
             Some {| semver.major := x; semver.minor := y;
                     semver.patch := z; semver.pre := EmptyString;
                     semver.metadata := EmptyString;
                     semver.original := (a ++ "." ++ b ++ "." ++ c)%string |}
         | _, _, _ => None
         end.
Proof.
  intros Ha Hb Hc. unfold semver.NewVersion.
  assert (Hv : match (a ++ "." ++ b ++ "." ++ c)%string with
               | String "v" s' => s'
               | _ => (a ++ "." ++ b ++ "." ++ c)%string
               end = (a ++ "." ++ b ++ "." ++ c)%string).
  { destruct Ha as [Ha Hne]. destruct a as [|a0 a]; [easy|].
    simpl in Ha. apply andb_prop in Ha as [Ha _]. cbn [append].
    destruct a0 as [[] [] [] [] [] [] [] []]; try reflexivity; discriminate. }
  rewrite Hv. cbn [append].
  rewrite (span_digits_dot a _ Ha), (digits_nonEmpty a Ha).
  cbn [negb semver.optSegment].
  rewrite (span_digits_dot b _ Hb), (digits_nonEmpty b Hb).
  cbn [semver.optSegment].
  rewrite (span_digits_end c Hc), (digits_nonEmpty c Hc).
  rewrite ?(digits_nonEmpty b Hb).
  cbn [semver.parseTail].
  destruct (negb CoerceNewVersion
            && (semver.leadingZero a || semver.leadingZero b
                || semver.leadingZero c)); [reflexivity|].
  assert (Hseg : forall d, digits d -> semver.parseSegment d = ParseUint d).
  { intros d [_ Hd]. now destruct d. }
  rewrite (Hseg b Hb), (Hseg c Hc).
  destruct (ParseUint a), (ParseUint b), (ParseUint c); reflexivity.
Qed.

Lemma Split_digits (d : string) :
  digits d -> Split d "." = [d].
Proof.
  intros [H _]. apply Split_single. unfold contains_byte.
  apply negb_false_iff.
  induction d as [|a d IH]; [reflexivity|].
  simpl in *. apply andb_prop in H as [Ha Hd]. rewrite (IH Hd), andb_true_r.
  destruct a as [[] [] [] [] [] [] [] []]; try reflexivity; discriminate.
Qed.

Lemma Split_app_sep (x r : string) (c : ascii) :
  Split x c = [x] -> Split (x ++ String c r) c = x :: Split r c.
Proof.
  induction x as [|a x IH]; simpl.
  - now rewrite Ascii.eqb_refl.
  - destruct (Ascii.eqb a c) eqn:E; [discriminate|].
    destruct (Split x c) as [|y ys] eqn:Es; [now apply Split_not_nil in Es|].
    intros [= -> ->]. now rewrite IH.
Qed.

Lemma Split_triplet (a b c : string) :
  digits a -> digits b -> digits c ->
  Split (a ++ "." ++ b ++ "." ++ c) "." = [a; b; c].
Proof.
  intros Ha Hb Hc. cbn [append].
  rewrite (Split_app_sep a _ _ (Split_digits a Ha)).
  rewrite (Split_app_sep b _ _ (Split_digits b Hb)).
  now rewrite (Split_digits c Hc).
Qed.

(** C2 (amended): if [extractVersionFromTag] splits a tag into a prefix and
    a version string, the version string parses to [v], and none of its
    three numeric components starts with a superfluous zero, then the
    prefix followed by the string form of [v] is the tag again.  With
    [CoerceNewVersion] off the parser itself rejects such zeros. *)
Theorem tag_roundtrip (CoerceNewVersion : bool)
        (tag prefix versionStr : string) (v : semver.Version) :
  extractVersionFromTag tag = inr (prefix, versionStr) ->
  semver.NewVersion CoerceNewVersion versionStr = Some v ->
  CoerceNewVersion = false
  \/ List.forallb (fun d => negb (semver.leadingZero d))
                  (Split versionStr ".") = true ->
  (prefix ++ semver.String_ v)%string = tag.
Proof.
  unfold extractVersionFromTag.
  destruct (matchSemverTagPattern tag) as [[p vs]|] eqn:Hm; [|discriminate].
  intros [= -> ->] Hv Hz.
  apply matchSemverTagPattern_sound in Hm as [-> Ht].
  apply isTriplet_shape in Ht as (a & b & c & -> & Ha & Hb & Hc).
  rewrite (NewVersion_triplet _ a b c Ha Hb Hc) in Hv.
  rewrite (Split_triplet a b c Ha Hb Hc) in Hz.
  assert (Hlz : semver.leadingZero a = false /\ semver.leadingZero b = false
                /\ semver.leadingZero c = false).
  { destruct Hz as [->|Hz].
    - simpl in Hv.
      destruct (semver.leadingZero a), (semver.leadingZero b),
        (semver.leadingZero c); try discriminate; auto.
    - simpl in Hz.
      destruct (semver.leadingZero a), (semver.leadingZero b),
        (semver.leadingZero c); try discriminate; auto. }
  destruct Hlz as (Hza & Hzb & Hzc).
  rewrite Hza, Hzb, Hzc, andb_false_r in Hv.
  destruct (ParseUint a) as [x|] eqn:Ea; [|discriminate].
  destruct (ParseUint b) as [y|] eqn:Eb; [|discriminate].
  destruct (ParseUint c) as [z|] eqn:Ec; [|discriminate].
  injection Hv as <-. unfold semver.String_. cbn.
  rewrite (FormatUint_ParseUint a x Ea Hza), (FormatUint_ParseUint b y Eb Hzb),
    (FormatUint_ParseUint c z Ec Hzc).
  now rewrite string_app_nil_r.
Qed.

(** The theorem at the tag of scenario A. *)
Lemma tag_roundtrip_witness :
  exists v, semver.NewVersion true "2.34.0" = Some v
            /\ ("apache-" ++ semver.String_ v)%string = "apache-2.34.0".
Proof.
  eexists. split; [reflexivity|].
  apply (tag_roundtrip true "apache-2.34.0" "apache-" "2.34.0").
  - reflexivity.
  - reflexivity.
  - right. reflexivity.
Defined.

(* ================================================================== *)
(** ** Tags built from a prefix and a triplet                          *)
(* ================================================================== *)

Lemma string_of_uint_digits (d : Decimal.uint) :
  forallb isDigit (NilEmpty.string_of_uint d) = true.
Proof. induction d; simpl; auto. Qed.

Lemma to_uint_nonnil (n : N) : N.to_uint n <> Decimal.Nil.
Proof.
  destruct n; simpl; [discriminate|].
  apply DecimalPos.Unsigned.to_uint_nonnil.
Qed.

Lemma FormatUint_NilEmpty (n : N) :
  FormatUint n = NilEmpty.string_of_uint (N.to_uint n).
Proof.
  unfold FormatUint. pose proof (to_uint_nonnil n).
  now destruct (N.to_uint n).
Qed.

Lemma FormatUint_digits (n : N) : digits (FormatUint n).
Proof.
  rewrite FormatUint_NilEmpty. split.
  - apply string_of_uint_digits.
  - pose proof (to_uint_nonnil n). now destruct (N.to_uint n).
Qed.

Lemma ParseUint_FormatUint (n : N) :
  (n <= MaxUint64)%N -> ParseUint (FormatUint n) = Some n.
Proof.
  intros Hn. destruct (FormatUint_digits n) as [Hd Hne].
  unfold ParseUint. rewrite Hd.
  destruct (FormatUint n) as [|a s] eqn:E; [easy|]. rewrite <- E.
  rewrite FormatUint_NilEmpty, NilEmpty.usu, DecimalN.Unsigned.of_to.
  apply N.leb_le in Hn. now rewrite Hn.
Qed.

Lemma leadingZero_FormatUint (n : N) :
  semver.leadingZero (FormatUint n) = false.
Proof.
  rewrite FormatUint_NilEmpty.
  assert (Hn : Decimal.unorm (N.to_uint n) = N.to_uint n).
  { rewrite <- DecimalN.Unsigned.to_of. f_equal.
    apply DecimalN.Unsigned.of_to. }
  destruct (N.to_uint n) as [|d|d|d|d|d|d|d|d|d|d]; try reflexivity.
  destruct d as [|d|d|d|d|d|d|d|d|d|d]; try reflexivity; exfalso;
    rewrite DecimalFacts.unorm_D0 in Hn; unfold Decimal.unorm in Hn;
    match type of Hn with
    | match Decimal.nzhead ?u with _ => _ end = _ =>
        pose proof (DecimalFacts.nzhead_nonzero u) as Hz;
        destruct (Decimal.nzhead u) eqn:E; try discriminate Hn;
        eapply Hz; rewrite Hn; reflexivity
    end.
Qed.

(** The parser reads a printed triplet back, in either setting. *)
Lemma NewVersion_tripletString (CoerceNewVersion : bool)
      (major minor patch : N) :
  (major <= MaxUint64)%N -> (minor <= MaxUint64)%N ->
  (patch <= MaxUint64)%N ->
  semver.NewVersion CoerceNewVersion (tripletString major minor patch)
  = Some {| semver.major := major; semver.minor := minor;
            semver.patch := patch; semver.pre := EmptyString;
            semver.metadata := EmptyString;
            semver.original := tripletString major minor patch |}.
Proof.
  intros H1 H2 H3. unfold tripletString.
  rewrite (NewVersion_triplet _ _ _ _ (FormatUint_digits major)
             (FormatUint_digits minor) (FormatUint_digits patch)).
  rewrite !leadingZero_FormatUint, andb_false_r.
  now rewrite !ParseUint_FormatUint.
Qed.

Lemma String_tripletString (major minor patch : N) (p m o : string) :
  p = EmptyString -> m = EmptyString ->
  semver.String_ {| semver.major := major; semver.minor := minor;
                    semver.patch := patch; semver.pre := p;
                    semver.metadata := m; semver.original := o |}
  = tripletString major minor patch.
Proof.
  intros -> ->. unfold semver.String_, tripletString. cbn.
  now rewrite string_app_nil_r.
Qed.

Lemma isTriplet_complete (a b c : string) :
  digits a -> digits b -> digits c ->
  isTriplet (a ++ "." ++ b ++ "." ++ c) = true.
Proof.
  intros Ha Hb Hc. unfold isTriplet. cbn [append].
  rewrite (span_digits_dot a _ Ha).
  destruct a as [|a0 a]; [now destruct Ha|].
  rewrite (span_digits_dot b _ Hb).
  destruct b as [|b0 b]; [now destruct Hb|].
  rewrite (span_digits_end c Hc).
  destruct c as [|c0 c]; [now destruct Hc|]. reflexivity.
Qed.

Lemma forallb_string_app (f : ascii -> bool) (s t : string) :
  forallb f (s ++ t) = forallb f s && forallb f t.
Proof.
  induction s as [|a s IH]; simpl; [reflexivity|].
  now rewrite IH, andb_assoc.
Qed.

Lemma countDots_app (s t : string) :
  countDots (s ++ t) = (countDots s + countDots t)%nat.
Proof. induction s as [|a s IH]; simpl; [reflexivity|]. rewrite IH. lia. Qed.

Lemma digits_countDots (d : string) :
  forallb isDigit d = true -> countDots d = O.
Proof.
  induction d as [|a d IH]; simpl; [reflexivity|].
  intros H. apply andb_prop in H as [Ha Hd]. rewrite (IH Hd).
  destruct a as [[] [] [] [] [] [] [] []]; try reflexivity; discriminate.
Qed.

(** A dotted triplet holds exactly two dots and digits otherwise. *)
Lemma isTriplet_alphabet (s : string) :
  isTriplet s = true ->
  forallb (fun x => isDigit x || Ascii.eqb x ".") s = true
  /\ countDots s = 2%nat.
Proof.
  intros H. apply isTriplet_shape in H as (a & b & c & -> & Ha & Hb & Hc).
  assert (Hal : forall d, digits d ->
                  forallb (fun x => isDigit x || Ascii.eqb x ".") d = true).
  { intros d [Hd _]. induction d as [|x d IH]; simpl in *; [reflexivity|].
    apply andb_prop in Hd as [Hx Hd]. now rewrite Hx, IH. }
  split.
  - rewrite !forallb_string_app, (Hal a Ha), (Hal b Hb), (Hal c Hc).
    reflexivity.
  - rewrite !countDots_app, (digits_countDots a (proj1 Ha)),
      (digits_countDots b (proj1 Hb)), (digits_countDots c (proj1 Hc)).
    reflexivity.
Qed.

Lemma no_dots_digits (q : string) :
  forallb (fun x => isDigit x || Ascii.eqb x ".") q = true ->
  countDots q = O -> forallb isDigit q = true.
Proof.
  induction q as [|a q IH]; simpl; [reflexivity|].
  intros H Hc. apply andb_prop in H as [Ha Hq].
  destruct (Ascii.eqb a "."); simpl in *; [discriminate|].
  rewrite orb_false_r in Ha. rewrite Ha. now apply IH.
Qed.

Lemma digits_endsWithDigit (q : string) :
  q <> EmptyString -> forallb isDigit q = true -> endsWithDigit q = true.
Proof.
  induction q as [|a q IH]; [easy|]. intros _ H.
  simpl in H. apply andb_prop in H as [Ha Hq].
  destruct q as [|b q]; [exact Ha|].
  change (endsWithDigit (String b q) = true). now apply IH.
Qed.

(** After a text that does not end in a digit, a triplet is never part of
    a longer triplet. *)
Lemma not_triplet_suffix (q vs : string) :
  q <> EmptyString -> endsWithDigit q = false ->
  isTriplet vs = true -> isTriplet (q ++ vs) = false.
Proof.
  intros Hne He Hv. destruct (isTriplet (q ++ vs)) eqn:E; [|reflexivity].
  apply isTriplet_alphabet in E as [Ha Hc].
  apply isTriplet_alphabet in Hv as [_ Hcv].
  rewrite forallb_string_app in Ha. apply andb_prop in Ha as [Ha _].
  rewrite countDots_app, Hcv in Hc.
  assert (Hq : countDots q = O) by lia.
  rewrite (digits_endsWithDigit q Hne (no_dots_digits q Ha Hq)) in He.
  discriminate.
Qed.

Lemma matchSemverTagPattern_canonical (prefix vs : string) :
  isTriplet vs = true ->
  forallb (fun a => negb (Ascii.eqb a newline)) prefix = true ->
  endsWithDigit prefix = false ->
  matchSemverTagPattern (prefix ++ vs) = Some (prefix, vs).
Proof.
  intros Hv. induction prefix as [|a q IH]; intros Hnl He.
  - destruct vs as [|x vs]; [discriminate|].
    cbn [append matchSemverTagPattern]. now rewrite Hv.
  - cbn [append matchSemverTagPattern].
    change (String a (q ++ vs)) with (String a q ++ vs)%string.
    rewrite (not_triplet_suffix (String a q) vs ltac:(discriminate) He Hv).
    simpl in Hnl. apply andb_prop in Hnl as [Ha Hq].
    apply negb_true_iff in Ha. rewrite Ha.
    rewrite IH; [reflexivity|exact Hq|].
    destruct q as [|b q]; [reflexivity|exact He].
Qed.

(** The round trip for tags built from a prefix and a triplet: when the
    prefix holds no newline and does not end in a digit, and the three
    numbers fit 64 bits, the tag is split into that prefix and that
    triplet, the triplet parses to the three numbers, and prefix and
    string form give the tag again. *)
Lemma canonical_tag_roundtrip (CoerceNewVersion : bool) (prefix : string)
      (major minor patch : N) :
  (major <= MaxUint64)%N -> (minor <= MaxUint64)%N ->
  (patch <= MaxUint64)%N ->
  forallb (fun a => negb (Ascii.eqb a newline)) prefix = true ->
  endsWithDigit prefix = false ->
  let tag := (prefix ++ tripletString major minor patch)%string in
  exists v,
    extractVersionFromTag tag = inr (prefix, tripletString major minor patch)
    /\ semver.NewVersion CoerceNewVersion (tripletString major minor patch)
       = Some v
    /\ (semver.major v, semver.minor v, semver.patch v)
       = (major, minor, patch)
    /\ (prefix ++ semver.String_ v)%string = tag.
Proof.
  intros H1 H2 H3 Hnl He. cbv zeta.
  eexists. split; [|split; [apply NewVersion_tripletString; assumption|]].
  - unfold extractVersionFromTag.
    rewrite matchSemverTagPattern_canonical; auto.
    apply isTriplet_complete; apply FormatUint_digits.
  - split; [reflexivity|].
    now rewrite String_tripletString.
Qed.

(** A prefix that ends in a digit is not recovered: its last digits go to
    the version. *)
Example digit_prefix_is_split :
  extractVersionFromTag ("v1" ++ tripletString 2 3 4)
  = inr ("v", "12.3.4").
Proof. reflexivity. Qed.

(* ================================================================== *)
(** ** Comparison functions                                            *)
(* ================================================================== *)

Section LawfulFacts.
Context {A : Type}.
Variable cmp : A -> A -> comparison.
Hypothesis L : Lawful cmp.

Lemma law_eq_r (a b c : A) : cmp b c = Eq -> cmp a b = cmp a c.
Proof.
  intros H.
  pose proof (law_eq cmp L _ _ a H) as E.
  rewrite (law_sym cmp L a b), (law_sym cmp L a c) in E.
  destruct (cmp a b), (cmp a c); simpl in E; congruence.
Qed.

Lemma law_gt_lt (a b : A) : cmp a b = Gt <-> cmp b a = Lt.
Proof.
  rewrite (law_sym cmp L a b). destruct (cmp a b); simpl; split; congruence.
Qed.

Lemma law_trans_gt (a b c : A) :
  cmp a b = Gt -> cmp b c = Gt -> cmp a c = Gt.
Proof.
  rewrite !law_gt_lt. intros H1 H2. exact (law_trans cmp L _ _ _ H2 H1).
Qed.

(** Lexicographic lists. *)
Lemma lexcmp_Lawful : Lawful (lexcmp cmp).
Proof.
  split.
  - induction a as [|x a IH]; simpl; [reflexivity|].
    now rewrite (law_refl cmp L).
  - induction a as [|x a IH]; intros [|y b]; simpl; try reflexivity.
    rewrite (law_sym cmp L x y).
    destruct (cmp x y); simpl; auto.
  - induction a as [|x a IH]; intros [|y b] [|z c]; simpl;
      try congruence.
    destruct (cmp x y) eqn:Exy; try discriminate;
      destruct (cmp y z) eqn:Eyz; try discriminate; intros H1 H2.
    + rewrite (law_eq cmp L _ _ z Exy), Eyz. eauto.
    + now rewrite (law_eq cmp L _ _ z Exy), Eyz.
    + now rewrite <- (law_eq_r x y z Eyz), Exy.
    + now rewrite (law_trans cmp L _ _ _ Exy Eyz).
  - induction a as [|x a IH]; intros [|y b] [|z c]; simpl;
      try congruence.
    destruct (cmp x y) eqn:Exy; try discriminate. intros H.
    rewrite (law_eq cmp L _ _ z Exy).
    destruct (cmp y z); auto.
Qed.

(** A comparison read through a projection. *)
Lemma Lawful_on {B : Type} (f : B -> A) :
  Lawful (fun a b => cmp (f a) (f b)).
Proof.
  split; intros.
  - apply (law_refl cmp L).
  - apply (law_sym cmp L).
  - eapply (law_trans cmp L); eassumption.
  - now apply (law_eq cmp L).
Qed.

(** One comparison, then another to break the ties. *)
Lemma Lawful_then (cmp2 : A -> A -> comparison) :
  Lawful cmp2 -> Lawful (fun a b => thenCmp (cmp a b) (cmp2 a b)).
Proof.
  intros L2. split.
  - intros a. now rewrite (law_refl cmp L), (law_refl cmp2 L2).
  - intros a b. rewrite (law_sym cmp L a b), (law_sym cmp2 L2 a b).
    now destruct (cmp a b).
  - intros a b c.
    destruct (cmp a b) eqn:Eab; try discriminate;
      destruct (cmp b c) eqn:Ebc; try discriminate; simpl; intros H1 H2.
    + rewrite (law_eq cmp L _ _ c Eab), Ebc. simpl.
      exact (law_trans cmp2 L2 _ _ _ H1 H2).
    + now rewrite (law_eq cmp L _ _ c Eab), Ebc.
    + now rewrite <- (law_eq_r a b c Ebc), Eab.
    + now rewrite (law_trans cmp L _ _ _ Eab Ebc).
  - intros a b c.
    destruct (cmp a b) eqn:Eab; try discriminate. simpl. intros H.
    now rewrite (law_eq cmp L _ _ c Eab), (law_eq cmp2 L2 _ _ c H).
Qed.

End LawfulFacts.

Lemma N_compare_Lawful : Lawful N.compare.
Proof.
  split.
  - apply N.compare_refl.
  - intros a b. apply N.compare_antisym.
  - intros a b c. rewrite !N.compare_lt_iff. lia.
  - intros a b c H. apply N.compare_eq in H. now subst.
Qed.

Lemma Ascii_compare_Lawful : Lawful Ascii.compare.
Proof.
  split.
  - intros a. apply N.compare_refl.
  - intros a b. apply Ascii.compare_antisym.
  - intros a b c. unfold Ascii.compare. rewrite !N.compare_lt_iff. lia.
  - intros a b c H. apply Ascii.compare_eq_iff in H. now subst.
Qed.

Lemma String_compare_lexcmp (s t : string) :
  String.compare s t
  = lexcmp Ascii.compare (list_ascii_of_string s) (list_ascii_of_string t).
Proof.
  revert t. induction s as [|a s IH]; intros [|b t]; simpl; try reflexivity.
  rewrite IH. now destruct (Ascii.compare a b).
Qed.

Lemma String_compare_Lawful : Lawful String.compare.
Proof.
  pose proof (Lawful_on _ (lexcmp_Lawful _ Ascii_compare_Lawful)
                list_ascii_of_string) as L.
  split; intros; rewrite ?String_compare_lexcmp in *.
  - apply (law_refl _ L).
  - apply (law_sym _ L).
  - eapply (law_trans _ L); eassumption.
  - now apply (law_eq _ L).
Qed.

Lemma cmpPart_Lawful : Lawful cmpPart.
Proof.
  pose proof N_compare_Lawful as LN.
  pose proof String_compare_Lawful as LS.
  split.
  - intros [n|s]; simpl; [apply (law_refl _ LN)|apply (law_refl _ LS)].
  - intros [n|s] [m|t]; simpl; try reflexivity;
      [apply (law_sym _ LN)|apply (law_sym _ LS)].
  - intros [n|s] [m|t] [k|u]; simpl; try congruence;
      [apply (law_trans _ LN)|apply (law_trans _ LS)].
  - intros [n|s] [m|t] [k|u]; simpl; try congruence;
      [apply (law_eq _ LN)|apply (law_eq _ LS)].
Qed.

Lemma cmpPre_Lawful : Lawful cmpPre.
Proof.
  pose proof (lexcmp_Lawful _ cmpPart_Lawful) as LL.
  split.
  - intros [a|]; simpl; [apply (law_refl _ LL)|reflexivity].
  - intros [a|] [b|]; simpl; try reflexivity. apply (law_sym _ LL).
  - intros [a|] [b|] [c|]; simpl; try congruence. apply (law_trans _ LL).
  - intros [a|] [b|] [c|]; simpl; try congruence. apply (law_eq _ LL).
Qed.

(** The precedence of versions is a total preorder. *)
Lemma cmpVersion_Lawful : Lawful cmpVersion.
Proof.
  unfold cmpVersion.
  apply (Lawful_then (fun v o => N.compare (semver.major v) (semver.major o))).
  { apply (Lawful_on _ N_compare_Lawful). }
  apply (Lawful_then (fun v o => N.compare (semver.minor v) (semver.minor o))).
  { apply (Lawful_on _ N_compare_Lawful). }
  apply (Lawful_then (fun v o => N.compare (semver.patch v) (semver.patch o))).
  { apply (Lawful_on _ N_compare_Lawful). }
  apply (Lawful_on _ cmpPre_Lawful (fun v => preKey (semver.pre v))).
Qed.

(* ================================================================== *)
(** ** [Version.Compare] computes the precedence                       *)
(* ================================================================== *)

Lemma compareSegment_sign (a b : N) :
  semver.compareSegment a b = signZ (N.compare a b).
Proof.
  unfold semver.compareSegment.
  destruct (N.ltb_spec a b), (N.ltb_spec b a), (N.compare_spec a b);
    simpl; try reflexivity; lia.
Qed.

Lemma ParseUint_digits (s : string) (n : N) :
  ParseUint s = Some n -> forallb isDigit s = true.
Proof.
  unfold ParseUint. destruct s as [|a s]; [discriminate|].
  now destruct (forallb isDigit (String a s)).
Qed.

(** On valid identifiers, two different texts never read as one number. *)
Lemma ParseUint_inj (x y : string) (n : N) :
  validPart x -> validPart y ->
  ParseUint x = Some n -> ParseUint y = Some n -> x = y.
Proof.
  intros [_ Hx] [_ Hy] Ex Ey.
  rewrite <- (FormatUint_ParseUint x n Ex (Hx (ParseUint_digits _ _ Ex))).
  now rewrite <- (FormatUint_ParseUint y n Ey (Hy (ParseUint_digits _ _ Ey))).
Qed.

Lemma comparePrePart_sign (x y : string) :
  validPart x -> validPart y ->
  semver.comparePrePart x y = signZ (cmpPart (partOf x) (partOf y)).
Proof.
  intros Vx Vy. unfold semver.comparePrePart.
  destruct (String.eqb_spec x y) as [->|Hne].
  - now rewrite (law_refl _ cmpPart_Lawful).
  - destruct Vx as [Nx Dx], Vy as [Ny Dy]. rewrite Nx, Ny. cbn [negb].
    unfold partOf.
    destruct (ParseUint y) as [oi|] eqn:Ey, (ParseUint x) as [si|] eqn:Ex;
      simpl; try reflexivity.
    + destruct (N.ltb_spec si oi), (N.compare_spec si oi);
        simpl; try reflexivity; try lia.
      subst. exfalso. apply Hne.
      now apply (ParseUint_inj x y oi).
    + destruct (String.compare x y) eqn:E; try reflexivity.
      apply String.compare_eq_iff in E. contradiction.
Qed.

Lemma comparePrePart_pad_l (y : string) :
  semver.nonEmpty y = true -> semver.comparePrePart EmptyString y = (-1)%Z.
Proof. destruct y; [discriminate|reflexivity]. Qed.

Lemma comparePrePart_pad_r (x : string) :
  semver.nonEmpty x = true -> semver.comparePrePart x EmptyString = 1%Z.
Proof. destruct x; [discriminate|reflexivity]. Qed.

(** The loop from index [S i] on two slices is the loop from [i] on
    their tails. *)
Lemma comparePreLoop_shift (sp op sp' op' : list string) :
  (forall i, nth (S i) sp EmptyString = nth i sp' EmptyString) ->
  (forall i, nth (S i) op EmptyString = nth i op' EmptyString) ->
  forall n i,
    semver.comparePreLoop sp op (S i) n = semver.comparePreLoop sp' op' i n.
Proof.
  intros Hs Ho. induction n as [|n IH]; intros i; simpl; [reflexivity|].
  now rewrite Hs, Ho, IH.
Qed.

Lemma nth_nil_shift (i : nat) :
  nth (S i) (@nil string) EmptyString = nth i (@nil string) EmptyString.
Proof. now destruct i. Qed.

Lemma signZ_zero (c : comparison) : (signZ c =? 0)%Z = true <-> c = Eq.
Proof. destruct c; simpl; split; congruence. Qed.

Lemma comparePreLoop_lex (sp : list string) :
  Forall validPart sp ->
  forall op, Forall validPart op ->
    semver.comparePreLoop sp op O
      (Nat.max (List.length sp) (List.length op))
    = signZ (lexcmp cmpPart (map partOf sp) (map partOf op)).
Proof.
  induction 1 as [|x sp Vx Vsp IH]; intros op Vop.
  - destruct Vop as [|y op Vy Vop]; [reflexivity|].
    cbn [List.length Nat.max semver.comparePreLoop nth map lexcmp].
    now rewrite (comparePrePart_pad_l y (proj1 Vy)).
  - destruct Vop as [|y op Vy Vop].
    + cbn [List.length Nat.max semver.comparePreLoop nth map lexcmp].
      now rewrite (comparePrePart_pad_r x (proj1 Vx)).
    + cbn [List.length Nat.max semver.comparePreLoop nth map lexcmp].
      rewrite (comparePrePart_sign x y Vx Vy).
      destruct (cmpPart (partOf x) (partOf y)) eqn:E; cbn; try reflexivity.
      rewrite (comparePreLoop_shift (x :: sp) (y :: op) sp op)
        by (intros; reflexivity).
      now apply IH.
Qed.

Lemma comparePrerelease_sign (ps po : string) :
  Forall validPart (Split ps ".") -> Forall validPart (Split po ".") ->
  semver.comparePrerelease ps po
  = signZ (lexcmp cmpPart (map partOf (Split ps "."))
                          (map partOf (Split po "."))).
Proof.
  intros Hs Ho. unfold semver.comparePrerelease.
  now apply comparePreLoop_lex.
Qed.

(** On the versions [NewVersion] builds, [Compare] returns the sign of the
    precedence. *)
Lemma Compare_sign (v o : semver.Version) :
  ValidVersion v -> ValidVersion o ->
  semver.Compare v o = signZ (cmpVersion v o).
Proof.
  intros Vv Vo. unfold semver.Compare, cmpVersion.
  rewrite !compareSegment_sign.
  destruct (N.compare (semver.major v) (semver.major o)); try reflexivity.
  destruct (N.compare (semver.minor v) (semver.minor o)); try reflexivity.
  destruct (N.compare (semver.patch v) (semver.patch o)); try reflexivity.
  cbn [signZ Z.eqb negb thenCmp]. unfold preKey.
  destruct (semver.pre v) as [|a ps] eqn:Ev, (semver.pre o) as [|b po] eqn:Eo;
    try reflexivity.
  cbn [semver.nonEmpty negb andb cmpPre].
  destruct Vv as [Vv|Vv]; [rewrite Ev in Vv; discriminate|].
  destruct Vo as [Vo|Vo]; [rewrite Eo in Vo; discriminate|].
  rewrite Ev in Vv. rewrite Eo in Vo.
  now apply comparePrerelease_sign.
Qed.

Lemma GreaterThan_Gt (v o : semver.Version) :
  ValidVersion v -> ValidVersion o ->
  semver.GreaterThan v o = true <-> cmpVersion v o = Gt.
Proof.
  intros Vv Vo. unfold semver.GreaterThan. rewrite (Compare_sign v o Vv Vo).
  destruct (cmpVersion v o); cbv; split; congruence.
Qed.

Lemma GreaterThan_not_Gt (v o : semver.Version) :
  ValidVersion v -> ValidVersion o ->
  semver.GreaterThan v o = false <-> cmpVersion v o <> Gt.
Proof.
  intros Vv Vo. rewrite <- (GreaterThan_Gt v o Vv Vo).
  destruct (semver.GreaterThan v o); split; congruence.
Qed.

(** Ordering totality: of two parsed versions exactly one is greater, or
    neither is. *)
Lemma Compare_total (v o : semver.Version) :
  ValidVersion v -> ValidVersion o ->
  (semver.GreaterThan v o = true /\ semver.LessThan v o = false
     /\ semver.Equal v o = false /\ semver.GreaterThan o v = false)
  \/ (semver.GreaterThan v o = false /\ semver.LessThan v o = true
     /\ semver.Equal v o = false /\ semver.GreaterThan o v = true)
  \/ (semver.GreaterThan v o = false /\ semver.LessThan v o = false
     /\ semver.Equal v o = true /\ semver.GreaterThan o v = false).
Proof.
  intros Vv Vo. unfold semver.GreaterThan, semver.LessThan, semver.Equal.
  rewrite (Compare_sign v o Vv Vo), (Compare_sign o v Vo Vv).
  rewrite (law_sym _ cmpVersion_Lawful v o).
  destruct (cmpVersion v o); cbv; tauto.
Qed.

(* ================================================================== *)
(** ** What [NewVersion] builds is valid                               *)
(* ================================================================== *)

Lemma parseTail_pre (r p m : string) :
  semver.parseTail r = Some (p, m) ->
  p = EmptyString \/ semver.validIdents p = true.
Proof.
  unfold semver.parseTail. destruct r as [|a r].
  - intros [= <- <-]. now left.
  - destruct (span (fun a0 => negb (Ascii.eqb a0 "+")) r) as [p' r'].
    destruct a as [[] [] [] [] [] [] [] []]; try discriminate.
    + destruct (semver.validIdents r); [|discriminate].
      intros [= <- <-]. now left.
    + destruct (semver.validIdents p') eqn:E; [|discriminate].
      destruct r' as [|b m'].
      * intros [= <- <-]. now right.
      * destruct (semver.validIdents m'); [|discriminate].
        intros [= <- <-]. now right.
Qed.

Lemma validPart_of_checks (p : string) :
  semver.validIdents p = true -> semver.validatePrerelease p = true ->
  Forall validPart (Split p ".").
Proof.
  unfold semver.validIdents, semver.validatePrerelease.
  rewrite !forallb_forall. intros H1 H2.
  apply Forall_forall. intros x Hx.
  specialize (H1 x Hx). specialize (H2 x Hx).
  apply andb_prop in H1 as [Hn _]. split; [exact Hn|].
  intros Hd. rewrite Hd in H2. simpl in H2.
  now apply negb_true_iff in H2.
Qed.

Lemma NewVersion_valid (CoerceNewVersion : bool) (s : string)
      (v : semver.Version) :
  semver.NewVersion CoerceNewVersion s = Some v -> ValidVersion v.
Proof.
  unfold semver.NewVersion.
  set (s0 := match s with String "v" s' => s' | _ => s end).
  clearbody s0.
  destruct (span isDigit s0) as [maj r1].
  destruct (negb (semver.nonEmpty maj)); [discriminate|].
  destruct (semver.optSegment r1) as [[mi r2]|]; [|discriminate].
  destruct (if semver.nonEmpty mi then semver.optSegment r2
            else Some (EmptyString, r2)) as [[pa r3]|]; [|discriminate].
  destruct (semver.parseTail r3) as [[p m]|] eqn:Et; [|discriminate].
  destruct (negb CoerceNewVersion && _); [discriminate|].
  destruct (ParseUint maj); [|discriminate].
  destruct (semver.parseSegment mi); [|discriminate].
  destruct (semver.parseSegment pa); [|discriminate].
  destruct (semver.validatePrerelease p) eqn:Ep; [|discriminate].
  intros [= <-]. unfold ValidVersion. cbn [semver.pre].
  destruct (parseTail_pre _ _ _ Et) as [->|Hi]; [now left|right].
  now apply validPart_of_checks.
Qed.

Lemma findMatchingVersions_valid (CoerceNewVersion : bool)
      (tags : list string) (prefix : string) :
  Forall (fun c => ValidVersion (Version c))
         (findMatchingVersions CoerceNewVersion tags prefix).
Proof.
  induction tags as [|t rest IH]; simpl; [constructor|].
  destruct (HasPrefix t prefix); [|exact IH].
  destruct (semver.NewVersion CoerceNewVersion (TrimPrefix t prefix))
    as [v|] eqn:E; [|exact IH].
  constructor; [|exact IH]. simpl. exact (NewVersion_valid _ _ _ E).
Qed.

(* ================================================================== *)
(** ** Sorting by insertion meets the contract of [sort.Slice]         *)
(* ================================================================== *)

Section InsertionSort.
Context {A : Type}.
Variable less : A -> A -> bool.
Variable dom : A -> Prop.
Hypothesis irrefl : forall a, dom a -> less a a = false.
Hypothesis trans : forall a b c, dom a -> dom b -> dom c ->
  less a b = true -> less b c = true -> less a c = true.
Hypothesis incomp : forall a b c, dom a -> dom b -> dom c ->
  less a b = false -> less b a = false ->
  less b c = false -> less c b = false ->
  less a c = false /\ less c a = false.

Lemma less_asym (a b : A) :
  dom a -> dom b -> less a b = true -> less b a = false.
Proof.
  intros Da Db H. destruct (less b a) eqn:E; [|reflexivity].
  rewrite <- (irrefl a Da). symmetry. exact (trans a b a Da Db Da H E).
Qed.

Lemma less_negtrans (a b c : A) :
  dom a -> dom b -> dom c ->
  less a b = false -> less b c = false -> less a c = false.
Proof.
  intros Da Db Dc Hab Hbc.
  destruct (less a c) eqn:Hac; [|reflexivity].
  destruct (less c b) eqn:Hcb.
  { rewrite <- Hab. symmetry. exact (trans a c b Da Dc Db Hac Hcb). }
  destruct (less b a) eqn:Hba.
  { rewrite <- Hbc. symmetry. exact (trans b a c Db Da Dc Hba Hac). }
  destruct (incomp a b c Da Db Dc Hab Hba Hbc Hcb) as [H _]. congruence.
Qed.

Lemma insert_perm (x : A) (l : list A) :
  Permutation (x :: l) (sort.insert less x l).
Proof.
  induction l as [|y l IH]; simpl; [reflexivity|].
  destruct (less y x); [|reflexivity].
  rewrite perm_swap. now constructor.
Qed.

Lemma insertionSort_perm (l : list A) :
  Permutation l (sort.insertionSort less l).
Proof.
  induction l as [|x l IH]; simpl; [constructor|].
  rewrite <- insert_perm. now constructor.
Qed.

Lemma insert_ordered (x : A) (l : list A) :
  dom x -> Forall dom l ->
  sort.Ordered less l -> sort.Ordered less (sort.insert less x l).
Proof.
  intros Dx. unfold sort.Ordered.
  induction l as [|y l IH]; intros Dl Hl; simpl.
  - constructor; constructor.
  - inversion Dl as [|? ? Dy Dl']; subst.
    inversion Hl as [|? ? Hl' Hy]; subst.
    destruct (less y x) eqn:E.
    + constructor; [now apply IH|].
      eapply Permutation_Forall; [apply insert_perm|].
      constructor; [|exact Hy].
      now apply less_asym.
    + constructor; [exact Hl|].
      constructor; [exact E|].
      rewrite Forall_forall in *. intros b Hb.
      apply (less_negtrans b y x); auto.
Qed.

Lemma insertionSort_ordered (l : list A) :
  Forall dom l -> sort.Ordered less (sort.insertionSort less l).
Proof.
  induction l as [|x l IH]; intros Dl; simpl.
  - constructor.
  - inversion Dl; subst. apply insert_ordered; auto.
    eapply Permutation_Forall; [apply insertionSort_perm|]. assumption.
Qed.

End InsertionSort.

#[export] Instance insertion_Slice : sort.Slice.
Proof.
  refine {| sort.Slice_sort := @sort.insertionSort |}.
  - intros A less l. apply insertionSort_perm.
  - intros A less l [H1 H2 H3].
    apply (insertionSort_ordered less (fun a => In a l)); auto.
    now apply Forall_forall.
Defined.

(* ================================================================== *)
(** ** The version resolver                                            *)
(* ================================================================== *)

(** On parsed versions, "version descending" is a strict weak ordering. *)
Lemma byVersionDescending_StrictWeak (l : list VersionInfo) :
  Forall (fun c => ValidVersion (Version c)) l ->
  sort.StrictWeak byVersionDescending l.
Proof.
  intros V. rewrite Forall_forall in V.
  pose proof cmpVersion_Lawful as L.
  unfold byVersionDescending. split.
  - intros a Ha. apply GreaterThan_not_Gt; auto.
    now rewrite (law_refl _ L).
  - intros a b c Ha Hb Hc. rewrite !GreaterThan_Gt by auto.
    apply (law_trans_gt _ L).
  - intros a b c Ha Hb Hc. rewrite !GreaterThan_not_Gt by auto.
    intros H1 H2 H3 H4.
    assert (Eab : cmpVersion (Version a) (Version b) = Eq).
    { rewrite (law_sym _ L (Version a) (Version b)) in H2.
      destruct (cmpVersion (Version a) (Version b)); simpl in *; congruence. }
    assert (Ebc : cmpVersion (Version b) (Version c) = Eq).
    { rewrite (law_sym _ L (Version b) (Version c)) in H4.
      destruct (cmpVersion (Version b) (Version c)); simpl in *; congruence. }
    rewrite (law_sym _ L (Version a) (Version c)).
    rewrite (law_eq _ L _ _ (Version c) Eab), Ebc. simpl.
    split; discriminate.
Qed.

Section Resolver.
Variable CoerceNewVersion : bool.
Context {Sorter : sort.Slice}.

(** Among parsed candidates, the tag [findLatestVersion] picks is one of
    them and no candidate is greater than it. *)
Lemma sorted_head_maximal (first : VersionInfo) (l : list VersionInfo) :
  Forall (fun c => ValidVersion (Version c)) (first :: l) ->
  let selected :=
    hd first (sort.Slice_sort byVersionDescending (first :: l)) in
  In selected (first :: l)
  /\ forall c, In c (first :: l) ->
       semver.GreaterThan (Version c) (Version selected) = false.
Proof.
  intros V. cbv zeta.
  pose proof (sort.Slice_perm _ byVersionDescending (first :: l)) as P.
  pose proof (sort.Slice_ordered _ byVersionDescending (first :: l)
                (byVersionDescending_StrictWeak _ V)) as O.
  destruct (sort.Slice_sort byVersionDescending (first :: l))
    as [|s rest] eqn:E.
  { apply Permutation_sym, Permutation_nil in P. discriminate. }
  cbn [hd]. split.
  - apply (Permutation_in _ (Permutation_sym P)). now left.
  - intros c Hc. apply (Permutation_in _ P) in Hc.
    destruct Hc as [<-|Hc].
    + apply GreaterThan_not_Gt.
      * rewrite Forall_forall in V. apply V.
        apply (Permutation_in _ (Permutation_sym P)). now left.
      * rewrite Forall_forall in V. apply V.
        apply (Permutation_in _ (Permutation_sym P)). now left.
      * now rewrite (law_refl _ cmpVersion_Lawful).
    + inversion O as [|? ? _ Hs]; subst.
      rewrite Forall_forall in Hs. exact (Hs c Hc).
Qed.

(** C3: when [CheckImage] returns and some tag of the registry matches
    the prefix, the tag it reports is a candidate that no candidate
    exceeds, and [HasUpdate] is true if and only if the version of that
    maximum is strictly greater than the current version; an equal or
    lesser maximum gives false.  So an update is reported exactly when
    some candidate is greater than the current version, and the tag
    proposed is never less than or equal to it. *)
Theorem CheckImage_HasUpdate (image : string) (dockerClient : Client)
        (fuel : nat) (info : ImageInfo) (tags : list string) :
  CheckImage CoerceNewVersion image dockerClient fuel = Some (inr info) ->
  FetchAllTags dockerClient fuel (Repository info) = Some (inr tags) ->
  findMatchingVersions CoerceNewVersion tags (Prefix info) <> [] ->
  exists selected,
    In selected (findMatchingVersions CoerceNewVersion tags (Prefix info))
    /\ LatestTag info = FullTag selected
    /\ LatestVersion info = Some (Version selected)
    /\ (forall c,
          In c (findMatchingVersions CoerceNewVersion tags (Prefix info)) ->
          semver.GreaterThan (Version c) (Version selected) = false)
    /\ HasUpdate info
       = semver.GreaterThan (Version selected) (CurrentVersion info)
    /\ (HasUpdate info = true <->
          exists c,
            In c (findMatchingVersions CoerceNewVersion tags (Prefix info))
            /\ semver.GreaterThan (Version c) (CurrentVersion info) = true)
    /\ (HasUpdate info = true ->
          semver.LessThan (Version selected) (CurrentVersion info) = false
          /\ semver.Equal (Version selected) (CurrentVersion info) = false).
Proof.
  unfold CheckImage.
  destruct (parseImageString image) as [e|[repo tag]]; [discriminate|].
  destruct (extractVersionFromTag tag) as [e|[prefix versionStr]];
    [discriminate|].
  destruct (semver.NewVersion CoerceNewVersion versionStr)
    as [currentVer|] eqn:Ecur; [|discriminate].
  pose proof (NewVersion_valid _ _ _ Ecur) as Vcur.
  unfold findLatestVersion.
  destruct (FetchAllTags dockerClient fuel repo) as [[e|tags']|] eqn:Ef;
    try discriminate.
  destruct (findMatchingVersions CoerceNewVersion tags' prefix)
    as [|first l] eqn:Em.
  - intros [= <-]. cbn [Repository Prefix]. rewrite Ef.
    intros [= <-]. now rewrite Em.
  - intros [= <-]. cbn [Repository Prefix LatestTag LatestVersion HasUpdate
                        CurrentVersion].
    rewrite Ef. intros [= <-] _. rewrite Em.
    pose proof (findMatchingVersions_valid CoerceNewVersion tags' prefix)
      as V. rewrite Em in V.
    destruct (sorted_head_maximal first l V) as [Hin Hmax].
    set (selected := hd first
           (sort.Slice_sort byVersionDescending (first :: l))) in *.
    assert (Vsel : ValidVersion (Version selected)).
    { rewrite Forall_forall in V. now apply V. }
    exists selected. repeat split; auto.
    + intros H. exists selected. auto.
    + intros [c [Hc Hgt]].
      assert (Vc : ValidVersion (Version c)).
      { rewrite Forall_forall in V. now apply V. }
      specialize (Hmax c Hc).
      apply GreaterThan_Gt in Hgt; auto.
      apply GreaterThan_not_Gt in Hmax; auto.
      apply GreaterThan_Gt; auto.
      pose proof cmpVersion_Lawful as L.
      destruct (cmpVersion (Version c) (Version selected)) eqn:E.
      * now rewrite <- (law_eq _ L _ _ currentVer E).
      * apply (law_trans_gt _ L _ (Version c)); [|exact Hgt].
        apply (law_gt_lt _ L). exact E.
      * congruence.
    + destruct (Compare_total (Version selected) currentVer Vsel Vcur)
        as [T|[T|T]]; intuition congruence.
    + destruct (Compare_total (Version selected) currentVer Vsel Vcur)
        as [T|[T|T]]; intuition congruence.
Qed.

(** Without a matching tag nothing is proposed. *)
Lemma CheckImage_no_candidate (image : string) (dockerClient : Client)
      (fuel : nat) (info : ImageInfo) (tags : list string) :
  CheckImage CoerceNewVersion image dockerClient fuel = Some (inr info) ->
  FetchAllTags dockerClient fuel (Repository info) = Some (inr tags) ->
  findMatchingVersions CoerceNewVersion tags (Prefix info) = [] ->
  HasUpdate info = false /\ LatestVersion info = None.
Proof.
  unfold CheckImage.
  destruct (parseImageString image) as [e|[repo tag]]; [discriminate|].
  destruct (extractVersionFromTag tag) as [e|[prefix versionStr]];
    [discriminate|].
  destruct (semver.NewVersion CoerceNewVersion versionStr); [|discriminate].
  unfold findLatestVersion.
  destruct (FetchAllTags dockerClient fuel repo) as [[e|tags']|] eqn:Ef;
    try discriminate.
  destruct (findMatchingVersions CoerceNewVersion tags' prefix) eqn:Em.
  - intros [= <-]. auto.
  - intros [= <-]. cbn [Repository Prefix]. rewrite Ef.
    intros [= <-]. congruence.
Qed.

End Resolver.

(* ================================================================== *)
(** ** The scenarios of the specification                              *)
(* ================================================================== *)

(** The theorem at scenario A: image nginx:apache-2.34.0 against the tags
    apache-2.34.0, apache-2.35.0 and apache-rc1. *)
Lemma CheckImage_HasUpdate_witness :
  exists info selected,
    CheckImage true "nginx:apache-2.34.0" (NewClient scenarioARegistry) 1
    = Some (inr info)
    /\ In selected
          (findMatchingVersions true
             ["apache-2.34.0"; "apache-2.35.0"; "apache-rc1"] "apache-")
    /\ LatestTag info = FullTag selected
    /\ HasUpdate info
       = semver.GreaterThan (Version selected) (CurrentVersion info)
    /\ HasUpdate info = true
    /\ LatestTag info = "apache-2.35.0".
Proof.
  eassert (E : CheckImage true "nginx:apache-2.34.0"
                 (NewClient scenarioARegistry) 1 = Some (inr _))
    by (vm_compute; reflexivity).
  destruct (CheckImage_HasUpdate true "nginx:apache-2.34.0"
              (NewClient scenarioARegistry) 1 _
              ["apache-2.34.0"; "apache-2.35.0"; "apache-rc1"] E)
    as (selected & Hin & Htag & _ & _ & Hupd & _).
  - reflexivity.
  - vm_compute. discriminate.
  - eexists. exists selected. split; [exact E|].
    split; [exact Hin|]. split; [exact Htag|]. split; [exact Hupd|].
    split; reflexivity.
Defined.

(** Scenario B: the only tag is the current one; no update. *)
Example scenario_B :
  option_map (fun r => match r with
                       | inr info => Some (HasUpdate info, LatestTag info)
                       | inl _ => None
                       end)
    (CheckImage true "redis:7.0.0" (NewClient scenarioBRegistry) 1)
  = Some (Some (false, "7.0.0")).
Proof. reflexivity. Qed.

(** Scenario C: a tag without a version is reported as not semver-like. *)
Example scenario_C :
  CheckImage true "myapp:latest" (NewClient scenarioARegistry) 1
  = Some (inl (ErrNotSemverLike "latest")).
Proof. reflexivity. Qed.

(* ================================================================== *)
(** ** More on the tag fetch                                           *)
(* ================================================================== *)

(** The walk along a chain of pages, when the context is only known not to
    be cancelled before each of those pages. *)
Lemma fetchLoop_pagesUpTo_ctx (c : Client) (ctxDone : nat -> bool)
      (url url' : string) (pages : list DockerHubResponse) :
  pagesUpTo c url pages url' ->
  forall (fuel : nat) (st : fetchState),
    (forall i, (i < List.length pages)%nat ->
               ctxDone (pageCount st + i)%nat = false) ->
    fetchLoop c ctxDone (List.length pages + fuel) url st
    = fetchLoop c ctxDone fuel url' (afterPages st url pages).
Proof.
  intros H. induction H as [url|url p pages url' Hne Hresp _ IH];
    intros fuel st Hctx.
  - now rewrite afterPages_nil.
  - rewrite afterPages_cons. simpl.
    destruct (String.eqb_spec url EmptyString) as [->|_]; [easy|].
    pose proof (Hctx O ltac:(simpl; lia)) as H0.
    rewrite Nat.add_0_r in H0. rewrite H0, Hresp. simpl.
    apply IH. intros i Hi. cbn [pageCount].
    replace (S (pageCount st) + i)%nat with (pageCount st + S i)%nat by lia.
    apply Hctx. simpl. lia.
Qed.

(** X1: when the context is found cancelled before a page is requested,
    after any number of pages fetched, [FetchAllTagsWithContext] returns the
    cancellation error and no tags, and the page is not requested. *)
Theorem FetchAllTagsWithContext_cancelled (c : Client)
        (ctxDone : nat -> bool) (repo : string)
        (pages : list DockerHubResponse) (url : string) (fuel : nat) :
  pagesUpTo c (tagsURL c repo) pages url ->
  url <> EmptyString ->
  (forall i, (i < List.length pages)%nat -> ctxDone i = false) ->
  ctxDone (List.length pages) = true ->
  FetchAllTagsWithContext c ctxDone (List.length pages + S fuel) repo
  = (Some (inl ErrCancelled),
     afterPages initialState (tagsURL c repo) pages)
  /\ requested (afterPages initialState (tagsURL c repo) pages)
     = chainURLs (tagsURL c repo) pages.
Proof.
  intros Hchain Hne Hbefore Hdone. split; [|reflexivity].
  unfold FetchAllTagsWithContext.
  rewrite (fetchLoop_pagesUpTo_ctx c ctxDone _ _ _ Hchain).
  - simpl fetchLoop.
    destruct (String.eqb_spec url EmptyString) as [->|_]; [easy|].
    cbn [pageCount afterPages initialState Nat.add]. now rewrite Hdone.
  - intros i Hi. cbn [pageCount initialState Nat.add]. now apply Hbefore.
Qed.

(** The theorem at the mocked registry, the context being cancelled once
    two pages are in. *)
Lemma FetchAllTagsWithContext_cancelled_witness :
  FetchAllTagsWithContext (NewClient mockRegistry)
    (fun n => (2 <=? n)%nat) 3 "nginx"
  = (Some (inl ErrCancelled),
     {| tags := ["1.0.0"; "1.1.0"; "1.2.0"; "latest"];
        pageCount := 2;
        requested := [mockURL1; mockURL2] |}).
Proof.
  set (c := NewClient mockRegistry).
  assert (Hchain : pagesUpTo c (tagsURL c "nginx")
                     [ mockPage "1.0.0" "1.1.0" mockURL2;
                       mockPage "1.2.0" "latest" mockURL3 ] mockURL3).
  { repeat (apply pagesUpTo_cons; [discriminate|reflexivity|]).
    apply pagesUpTo_nil. }
  destruct (FetchAllTagsWithContext_cancelled c (fun n => (2 <=? n)%nat)
              "nginx" _ mockURL3 0 Hchain) as [H _].
  - discriminate.
  - intros i Hi. simpl in Hi.
    destruct i as [|[|i]]; [reflexivity|reflexivity|lia].
  - reflexivity.
  - exact H.
Defined.

(** X2: whenever the fetch loop ends in a status error, the code it
    carries is not 200 and is the status of the response to the address
    requested last. *)
Theorem status_error_comes_from_last_request (c : Client)
        (ctxDone : nat -> bool) (fuel : nat) (repo : string) (code : Z) :
  fst (FetchAllTagsWithContext c ctxDone fuel repo)
  = Some (inl (ErrUnexpectedStatus code)) ->
  code <> StatusOK
  /\ exists u body before,
       httpClient c u = Response code body
       /\ requested (snd (FetchAllTagsWithContext c ctxDone fuel repo))
          = before ++ [u].
Proof.
  intros H. unfold FetchAllTagsWithContext in *.
  destruct (fetchLoop_status_error_origin c ctxDone fuel _ _ _ H)
    as [Hc (u & body & Hu & before & Hb)].
  split; [exact Hc|]. now exists u, body, before.
Qed.

Lemma status_error_comes_from_last_request_witness :
  (204 <> StatusOK)%Z
  /\ exists u body before,
       httpClient (NewClient noContentRegistry) u = Response 204 body
       /\ requested (snd (FetchAllTagsWithContext
                            (NewClient noContentRegistry) Background 1
                            "nginx"))
          = before ++ [u].
Proof.
  apply (status_error_comes_from_last_request
           (NewClient noContentRegistry) Background 1 "nginx" 204).
  reflexivity.
Defined.

(* ================================================================== *)
(** ** More on repository names and image strings                      *)
(* ================================================================== *)

(** X3: [ParseRepositoryName] removes tag information: a repository name
    that is not empty and holds no colon is parsed the same with and
    without a tag appended after a colon. *)
Theorem ParseRepositoryName_ignores_tag (repo tag : string) :
  repo <> EmptyString ->
  contains_byte ":" repo = false ->
  ParseRepositoryName (repo ++ ":" ++ tag) = ParseRepositoryName repo.
Proof.
  intros Hne Hc. unfold ParseRepositoryName.
  rewrite (removeTag_no_colon repo Hc).
  unfold removeTag. cbn [append].
  rewrite (IndexByte_app_sep ":" repo tag Hc).
  destruct repo as [|a repo]; [easy|].
  cbn [String.length].
  change (S (String.length repo)) with (String.length (String a repo)).
  now rewrite take_app_length.
Qed.

Lemma ParseRepositoryName_ignores_tag_witness :
  ParseRepositoryName "bitnami/redis:7.0.0"
  = ParseRepositoryName "bitnami/redis".
Proof.
  apply (ParseRepositoryName_ignores_tag "bitnami/redis" "7.0.0").
  - discriminate.
  - reflexivity.
Defined.

(** X4: the round trip of an image string: a repository that is not empty
    and holds no colon, joined by a colon to a tag that is not empty and
    holds no newline, is split by [parseImageString] into exactly these
    two. *)
Theorem parseImageString_join (repo tag : string) :
  repo <> EmptyString ->
  contains_byte ":" repo = false ->
  tag <> EmptyString ->
  contains_byte newline tag = false ->
  parseImageString (repo ++ ":" ++ tag) = inr (repo, tag).
Proof.
  intros Hr Hc Ht Hn.
  unfold parseImageString, matchImageTagPattern. cbn [append].
  unfold contains_byte in Hc, Hn.
  apply negb_false_iff in Hc. apply negb_false_iff in Hn.
  rewrite (span_run _ repo (String ":" tag) Hc eq_refl).
  destruct repo as [|a repo]; [easy|].
  destruct tag as [|b tag]; [easy|].
  now rewrite Hn.
Qed.

Lemma parseImageString_join_witness :
  parseImageString "bitnami/redis:7.0.0" = inr ("bitnami/redis", "7.0.0").
Proof.
  apply (parseImageString_join "bitnami/redis" "7.0.0");
    try discriminate; reflexivity.
Defined.

(* ================================================================== *)
(** ** More on the tag grammar                                         *)
(* ================================================================== *)

Lemma matchSemverTagPattern_prefix (tag prefix versionStr : string) :
  matchSemverTagPattern tag = Some (prefix, versionStr) ->
  forallb (fun a => negb (Ascii.eqb a newline)) prefix = true.
Proof.
  revert prefix. induction tag as [|a tag IH]; intros prefix.
  - discriminate.
  - cbn [matchSemverTagPattern].
    destruct (isTriplet (String a tag)).
    + now intros [= <- <-].
    + destruct (Ascii.eqb a newline) eqn:E; [discriminate|].
      destruct (matchSemverTagPattern tag) as [[p v]|]; [|discriminate].
      intros [= <- <-]. simpl. rewrite E. simpl. now apply IH.
Qed.

Lemma matchSemverTagPattern_shortest (tag prefix versionStr : string) :
  matchSemverTagPattern tag = Some (prefix, versionStr) ->
  forall p v, tag = (p ++ v)%string -> isTriplet v = true ->
              (String.length prefix <= String.length p)%nat.
Proof.
  revert prefix. induction tag as [|a tag IH]; intros prefix.
  - discriminate.
  - cbn [matchSemverTagPattern].
    destruct (isTriplet (String a tag)) eqn:Et.
    + intros [= <- <-] p v _ _. simpl. lia.
    + destruct (Ascii.eqb a newline); [discriminate|].
      destruct (matchSemverTagPattern tag) as [[q w]|] eqn:Em;
        [|discriminate].
      intros [= <- <-] p v Hpv Hv.
      destruct p as [|b p].
      * simpl in Hpv. subst v. congruence.
      * simpl in Hpv. injection Hpv as _ Htag. simpl.
        apply le_n_S. exact (IH q eq_refl p v Htag Hv).
Qed.

(** X5: what [extractVersionFromTag] returns is a split of the tag into a
    prefix without newline and a dotted triplet of digit runs, and of all
    the splits of the tag with a triplet at the end it is the one with the
    shortest prefix, that is with the longest version. *)
Theorem extractVersionFromTag_shortest_prefix
        (tag prefix versionStr : string) :
  extractVersionFromTag tag = inr (prefix, versionStr) ->
  tag = (prefix ++ versionStr)%string
  /\ isTriplet versionStr = true
  /\ forallb (fun a => negb (Ascii.eqb a newline)) prefix = true
  /\ forall p v, tag = (p ++ v)%string -> isTriplet v = true ->
                 (String.length prefix <= String.length p)%nat.
Proof.
  unfold extractVersionFromTag.
  destruct (matchSemverTagPattern tag) as [[p v]|] eqn:Hm; [|discriminate].
  intros [= -> ->].
  destruct (matchSemverTagPattern_sound _ _ _ Hm) as [H1 H2].
  repeat split; auto.
  - exact (matchSemverTagPattern_prefix _ _ _ Hm).
  - exact (matchSemverTagPattern_shortest _ _ _ Hm).
Qed.

(** The theorem at a tag with two triplets at its end: "1.2.3.4" ends in
    "2.3.4" only, "10.2.3" is taken whole although "0.2.3" is a triplet
    too. *)
Lemma extractVersionFromTag_shortest_prefix_witness :
  extractVersionFromTag "v10.2.3" = inr ("v", "10.2.3")
  /\ ("v10.2.3" = "v1" ++ "0.2.3")%string
  /\ isTriplet "0.2.3" = true
  /\ (String.length "v" <= String.length "v1")%nat.
Proof.
  destruct (extractVersionFromTag_shortest_prefix "v10.2.3" "v" "10.2.3"
              eq_refl) as (_ & _ & _ & H).
  repeat split; try reflexivity.
  exact (H "v1" "0.2.3" eq_refl eq_refl).
Defined.

Lemma matchSemverTagPattern_complete (p v : string) :
  isTriplet v = true ->
  forallb (fun a => negb (Ascii.eqb a newline)) p = true ->
  matchSemverTagPattern (p ++ v) <> None.
Proof.
  intros Hv. induction p as [|a p IH]; intros Hp.
  - destruct v as [|x v]; [discriminate|].
    cbn [append matchSemverTagPattern]. now rewrite Hv.
  - cbn [append matchSemverTagPattern].
    destruct (isTriplet (String a (p ++ v))); [discriminate|].
    simpl in Hp. apply andb_prop in Hp as [Ha Hp].
    apply negb_true_iff in Ha. rewrite Ha.
    specialize (IH Hp).
    destruct (matchSemverTagPattern (p ++ v)) as [[q w]|];
      [discriminate|contradiction].
Qed.

(** X6: [extractVersionFromTag] fails, with the not-semver-like error,
    exactly when the tag has no split into a prefix without newline and a
    dotted triplet of digit runs. *)
Theorem extractVersionFromTag_fails_iff (tag : string) :
  extractVersionFromTag tag = inl (ErrNotSemverLike tag)
  <-> ~ exists p v,
          tag = (p ++ v)%string /\ isTriplet v = true
          /\ forallb (fun a => negb (Ascii.eqb a newline)) p = true.
Proof.
  unfold extractVersionFromTag. split.
  - destruct (matchSemverTagPattern tag) as [[q w]|] eqn:Hm;
      [discriminate|].
    intros _ (p & v & -> & Hv & Hp).
    exact (matchSemverTagPattern_complete p v Hv Hp Hm).
  - intros H.
    destruct (matchSemverTagPattern tag) as [[q w]|] eqn:Hm; [|reflexivity].
    exfalso. apply H. exists q, w.
    destruct (matchSemverTagPattern_sound _ _ _ Hm) as [H1 H2].
    repeat split; auto.
    exact (matchSemverTagPattern_prefix _ _ _ Hm).
Qed.

(** X7: the round trip of a tag built from a prefix and a triplet: when
    the prefix holds no newline and does not end in a digit and the three
    numbers fit 64 bits, [extractVersionFromTag] gives back that prefix
    and the printed triplet, [semver.NewVersion] reads the triplet as the
    three numbers, and the prefix followed by the string form of the
    version is the tag. *)
Theorem tag_built_roundtrip (CoerceNewVersion : bool) (prefix : string)
        (major minor patch : N) :
  (major <= MaxUint64)%N -> (minor <= MaxUint64)%N ->
  (patch <= MaxUint64)%N ->
  forallb (fun a => negb (Ascii.eqb a newline)) prefix = true ->
  endsWithDigit prefix = false ->
  exists v,
    extractVersionFromTag (prefix ++ tripletString major minor patch)
    = inr (prefix, tripletString major minor patch)
    /\ semver.NewVersion CoerceNewVersion (tripletString major minor patch)
       = Some v
    /\ (semver.major v, semver.minor v, semver.patch v)
       = (major, minor, patch)
    /\ (prefix ++ semver.String_ v)%string
       = (prefix ++ tripletString major minor patch)%string.
Proof.
  intros H1 H2 H3 Hnl He.
  exact (canonical_tag_roundtrip CoerceNewVersion prefix major minor patch
           H1 H2 H3 Hnl He).
Qed.

Lemma tag_built_roundtrip_witness :
  exists v,
    extractVersionFromTag ("apache-" ++ tripletString 2 34 0)
    = inr ("apache-", tripletString 2 34 0)
    /\ semver.NewVersion true (tripletString 2 34 0) = Some v
    /\ (semver.major v, semver.minor v, semver.patch v) = (2, 34, 0)%N
    /\ ("apache-" ++ semver.String_ v)%string
       = ("apache-" ++ tripletString 2 34 0)%string.
Proof.
  apply (tag_built_roundtrip true "apache-" 2 34 0);
    try reflexivity; vm_compute; discriminate.
Defined.

(* ================================================================== *)
(** ** More on the version resolver                                    *)
(* ================================================================== *)

(** X8: the comparison [findLatestVersion] hands to [sort.Slice] is a
    strict weak ordering of the candidates [findMatchingVersions] selects,
    as sorting requires. *)
Theorem candidates_strict_weak_order (CoerceNewVersion : bool)
        (tags : list string) (prefix : string) :
  sort.StrictWeak byVersionDescending
    (findMatchingVersions CoerceNewVersion tags prefix).
Proof.
  apply byVersionDescending_StrictWeak, findMatchingVersions_valid.
Qed.

Lemma TrimPrefix_app (p s : string) : TrimPrefix (p ++ s) p = s.
Proof.
  unfold TrimPrefix. rewrite HasPrefix_app. apply drop_app_length.
Qed.

Section ResolverResult.
Variable CoerceNewVersion : bool.
Context {Sorter : sort.Slice}.

(** The invariants of a successful [CheckImage]. *)
Lemma CheckImage_invariants (image : string) (dockerClient : Client)
        (fuel : nat) (info : ImageInfo) :
  CheckImage CoerceNewVersion image dockerClient fuel = Some (inr info) ->
  image = (Repository info ++ ":" ++ Tag info)%string
  /\ HasPrefix (Tag info) (Prefix info) = true
  /\ semver.NewVersion CoerceNewVersion
       (TrimPrefix (Tag info) (Prefix info)) = Some (CurrentVersion info)
  /\ (forall v, LatestVersion info = Some v ->
        exists tags,
          FetchAllTags dockerClient fuel (Repository info)
          = Some (inr tags)
          /\ In (LatestTag info) tags
          /\ HasPrefix (LatestTag info) (Prefix info) = true
          /\ semver.NewVersion CoerceNewVersion
               (TrimPrefix (LatestTag info) (Prefix info)) = Some v)
  /\ (LatestVersion info = None -> HasUpdate info = false)
  /\ (HasUpdate info = true -> LatestTag info <> Tag info).
Proof.
  unfold CheckImage, parseImageString.
  destruct (matchImageTagPattern image) as [[repo tag]|] eqn:Hi;
    [|discriminate].
  assert (Himg : image = (repo ++ ":" ++ tag)%string).
  { unfold matchImageTagPattern in Hi.
    destruct (span (fun a => negb (Ascii.eqb a ":")) image) as [g1 rest]
      eqn:Es.
    apply span_fst_snd in Es as (-> & _ & Hrest).
    destruct g1 as [|a g1]; [discriminate|].
    destruct rest as [|x g2]; [discriminate|].
    destruct g2 as [|b g2]; [discriminate|].
    destruct (forallb _ (String b g2)); [|discriminate].
    injection Hi as <- <-.
    apply negb_false_iff, Ascii.eqb_eq in Hrest. now subst x. }
  unfold extractVersionFromTag.
  destruct (matchSemverTagPattern tag) as [[prefix versionStr]|] eqn:Ht;
    [|discriminate].
  apply matchSemverTagPattern_sound in Ht as [-> _].
  destruct (semver.NewVersion CoerceNewVersion versionStr)
    as [currentVer|] eqn:Ecur; [|discriminate].
  pose proof (NewVersion_valid _ _ _ Ecur) as Vcur.
  unfold findLatestVersion.
  destruct (FetchAllTags dockerClient fuel repo) as [[e|tags]|] eqn:Ef;
    try discriminate.
  destruct (findMatchingVersions CoerceNewVersion tags prefix)
    as [|first l] eqn:Em.
  - intros [= <-].
    cbn [Repository Tag Prefix CurrentVersion LatestTag LatestVersion
         HasUpdate].
    rewrite HasPrefix_app, TrimPrefix_app.
    repeat split; auto; discriminate.
  - intros [= <-].
    cbn [Repository Tag Prefix CurrentVersion LatestTag LatestVersion
         HasUpdate].
    rewrite HasPrefix_app, TrimPrefix_app.
    pose proof (findMatchingVersions_valid CoerceNewVersion tags prefix)
      as V. rewrite Em in V.
    destruct (sorted_head_maximal first l V) as [Hin _].
    set (selected := hd first
           (sort.Slice_sort byVersionDescending (first :: l))) in *.
    rewrite <- Em in Hin.
    assert (Hsel : In (FullTag selected) tags
                   /\ HasPrefix (FullTag selected) prefix = true
                   /\ semver.NewVersion CoerceNewVersion
                        (TrimPrefix (FullTag selected) prefix)
                      = Some (Version selected)).
    { clear - Hin. induction tags as [|t rest IH]; simpl in *; [easy|].
      destruct (HasPrefix t prefix) eqn:Hp.
      - destruct (semver.NewVersion CoerceNewVersion (TrimPrefix t prefix))
          as [w|] eqn:Hv.
        + destruct Hin as [<-|Hin]; [simpl; auto|].
          destruct (IH Hin) as (? & ? & ?); auto.
        + destruct (IH Hin) as (? & ? & ?); auto.
      - destruct (IH Hin) as (? & ? & ?); auto. }
    destruct Hsel as (Hs1 & Hs2 & Hs3).
    repeat split; auto.
    + intros v [= <-]. exists tags. auto.
    + discriminate.
    + intros Hup Heq. rewrite Heq, TrimPrefix_app, Ecur in Hs3.
      injection Hs3 as Hs3. rewrite <- Hs3 in Hup.
      apply GreaterThan_Gt in Hup; auto.
      rewrite (law_refl _ cmpVersion_Lawful) in Hup. discriminate.
Qed.

(** X9: what a successful [CheckImage] reports: the image string is the
    repository, a colon and the tag; the tag starts with the prefix and
    the rest of it parses to the current version; a latest tag, when there
    is one, is a tag of the registry that starts with the same prefix and
    whose rest parses to the latest version; and when an update is
    reported the latest tag differs from the current one. *)
Theorem CheckImage_result (image : string) (dockerClient : Client)
        (fuel : nat) (info : ImageInfo) :
  CheckImage CoerceNewVersion image dockerClient fuel = Some (inr info) ->
  image = (Repository info ++ ":" ++ Tag info)%string
  /\ HasPrefix (Tag info) (Prefix info) = true
  /\ semver.NewVersion CoerceNewVersion
       (TrimPrefix (Tag info) (Prefix info)) = Some (CurrentVersion info)
  /\ (forall v, LatestVersion info = Some v ->
        exists tags,
          FetchAllTags dockerClient fuel (Repository info)
          = Some (inr tags)
          /\ In (LatestTag info) tags
          /\ HasPrefix (LatestTag info) (Prefix info) = true
          /\ semver.NewVersion CoerceNewVersion
               (TrimPrefix (LatestTag info) (Prefix info)) = Some v)
  /\ (LatestVersion info = None -> HasUpdate info = false)
  /\ (HasUpdate info = true -> LatestTag info <> Tag info).
Proof. exact (CheckImage_invariants image dockerClient fuel info). Qed.

End ResolverResult.

(** The theorem at scenario A. *)
Lemma CheckImage_result_witness :
  exists info,
    CheckImage true "nginx:apache-2.34.0" (NewClient scenarioARegistry) 1
    = Some (inr info)
    /\ HasUpdate info = true
    /\ LatestTag info <> Tag info
    /\ HasPrefix (LatestTag info) (Prefix info) = true.
Proof.
  eassert (E : CheckImage true "nginx:apache-2.34.0"
                 (NewClient scenarioARegistry) 1 = Some (inr _))
    by (vm_compute; reflexivity).
  destruct (CheckImage_result true _ _ _ _ E)
    as (_ & _ & _ & Hl & _ & Hne).
  destruct (Hl _ eq_refl) as (tags & _ & _ & Hp & _).
  eexists. split; [exact E|]. split; [reflexivity|].
  split; [apply Hne; reflexivity|exact Hp].
Defined.

(* ================================================================== *)
(** ** Suffixes                                                        *)
(* ================================================================== *)

Import GoStringsExt.

Lemma string_length_app (a b : string) :
  String.length (a ++ b) = (String.length a + String.length b)%nat.
Proof. induction a as [|x a IH]; simpl; [reflexivity|]. now rewrite IH. Qed.

Lemma HasSuffix_app (s suffix : string) : HasSuffix (s ++ suffix) suffix = true.
Proof.
  unfold HasSuffix. rewrite string_length_app.
  replace (String.length s + String.length suffix - String.length suffix)%nat
    with (String.length s) by lia.
  rewrite drop_app_length, String.eqb_refl, andb_true_r.
  apply Nat.leb_le. lia.
Qed.

Lemma TrimSuffix_app (s suffix : string) : TrimSuffix (s ++ suffix) suffix = s.
Proof.
  unfold TrimSuffix. rewrite HasSuffix_app, string_length_app.
  replace (String.length s + String.length suffix - String.length suffix)%nat
    with (String.length s) by lia.
  apply take_app_length.
Qed.

(* ================================================================== *)
(** ** pkg/gitlab                                                      *)
(* ================================================================== *)

(** X10: the project path of a repository address: when the path of the
    address is a slash, the project and ".git", [extractProjectPath] gives
    the project, whatever it is; one leading slash and one ".git" are
    removed, no more. *)
Theorem extractProjectPath_project (url_Path : string -> option string)
        (repoURL project : string) :
  url_Path repoURL = Some ("/" ++ project ++ ".git")%string ->
  gitlab.extractProjectPath url_Path repoURL = project.
Proof.
  intros H. unfold gitlab.extractProjectPath. rewrite H.
  replace ("/" ++ project ++ ".git")%string
    with (("/" ++ project) ++ ".git")%string by reflexivity.
  rewrite TrimSuffix_app. apply (TrimPrefix_app "/" project).
Qed.

Lemma extractProjectPath_project_witness :
  gitlab.extractProjectPath
    (fun _ => Some "/group/sub/project.git.git"%string)
    "https://gitlab.com/group/sub/project.git.git"
  = "group/sub/project.git".
Proof.
  apply (extractProjectPath_project
           (fun _ => Some "/group/sub/project.git.git"%string)
           "https://gitlab.com/group/sub/project.git.git"
           "group/sub/project.git").
  reflexivity.
Defined.

Lemma no_slash_after_cut (u : string) :
  contains_byte "/"
    match IndexByte u "/" with
    | Some i => take i u
    | None => u
    end = false.
Proof.
  destruct (IndexByte u "/") as [i|] eqn:E.
  - exact (IndexByte_take _ _ _ E).
  - now apply IndexByte_None.
Qed.

(** X11: the host [extractHostFromURL] returns never holds a slash; and
    for an address made of "https://" (or "http://"), a host without
    slash, a slash and a path, it is that host, provided what follows the
    scheme does not itself start with "http://". *)
Theorem extractHostFromURL_host (url host path : string) :
  contains_byte "/" (gitlab.extractHostFromURL url) = false
  /\ (contains_byte "/" host = false ->
      HasPrefix (host ++ "/" ++ path) "http://" = false ->
      gitlab.extractHostFromURL ("https://" ++ host ++ "/" ++ path) = host
      /\ gitlab.extractHostFromURL ("http://" ++ host ++ "/" ++ path)
         = host).
Proof.
  split.
  - unfold gitlab.extractHostFromURL. apply no_slash_after_cut.
  - intros Hh Hp.
    assert (Hcut : match IndexByte (host ++ "/" ++ path) "/" with
                   | Some i => take i (host ++ "/" ++ path)
                   | None => (host ++ "/" ++ path)%string
                   end = host).
    { cbn [append]. rewrite (IndexByte_app_sep "/" host path Hh).
      apply take_app_length. }
    split; unfold gitlab.extractHostFromURL.
    + rewrite (TrimPrefix_app "https://" (host ++ "/" ++ path)).
      assert (Hkeep : TrimPrefix (host ++ "/" ++ path) "http://"
                      = (host ++ "/" ++ path)%string)
        by (unfold TrimPrefix; now rewrite Hp).
      rewrite Hkeep. exact Hcut.
    + change (TrimPrefix ("http://" ++ host ++ "/" ++ path) "https://")
        with ("http://" ++ host ++ "/" ++ path)%string.
      rewrite (TrimPrefix_app "http://" (host ++ "/" ++ path)). exact Hcut.
Qed.

Lemma extractHostFromURL_host_witness :
  gitlab.extractHostFromURL "https://gitlab.com/group/project.git"
  = "gitlab.com".
Proof.
  destruct (extractHostFromURL_host EmptyString "gitlab.com"
              "group/project.git") as [_ H].
  destruct (H eq_refl eq_refl) as [H1 _]. exact H1.
Defined.

(** X12: [GetDefaultBranch] fails only for a repository that is not
    cloned, with the error of [validateRepoCloned]; for a cloned one it
    always names a branch, and that branch is "main" when both git
    commands fail. *)
Theorem GetDefaultBranch_fails_only_uncloned
        (TrimSpace : string -> string) (cfg : config.Config)
        (remoteShow symbolicRef : string + string) :
  match gitlab.GetDefaultBranch TrimSpace cfg remoteShow symbolicRef with
  | inl err =>
      err = "repository not cloned"
      /\ (config.ClonedRepo cfg = false
          \/ config.TempDir cfg = EmptyString)
  | inr _ =>
      config.ClonedRepo cfg = true /\ config.TempDir cfg <> EmptyString
  end
  /\ forall e1 e2,
       gitlab.validateRepoCloned cfg = None ->
       gitlab.GetDefaultBranch TrimSpace cfg (inl e1) (inl e2) = inr "main".
Proof.
  unfold gitlab.GetDefaultBranch, gitlab.validateRepoCloned.
  destruct (config.ClonedRepo cfg); simpl.
  - destruct (String.eqb_spec (config.TempDir cfg) EmptyString) as [E|E].
    + split; [auto|discriminate].
    + split; [|reflexivity].
      destruct remoteShow as [e|output].
      * destruct symbolicRef; auto.
      * destruct (gitlab.findHeadBranch TrimSpace (Split output newline));
          [auto|]. destruct symbolicRef; auto.
  - split; [auto|discriminate].
Qed.

Lemma GetDefaultBranch_fails_only_uncloned_witness :
  gitlab.GetDefaultBranch (fun s => s) scenarioConfig
    (inl "exit status 128"%string) (inl "exit status 128"%string)
  = inr "main".
Proof.
  destruct (GetDefaultBranch_fails_only_uncloned (fun s => s) scenarioConfig
              (inl "exit status 128"%string) (inl "exit status 128"%string))
    as [_ H].
  apply H. reflexivity.
Defined.

(* ================================================================== *)
(** ** pkg/config: compose files                                       *)
(* ================================================================== *)

Lemma HasPrefix_iff (s p : string) :
  HasPrefix s p = true <-> exists r, s = (p ++ r)%string.
Proof.
  split.
  - intros H. eexists. now apply HasPrefix_split.
  - intros [r ->]. apply HasPrefix_app.
Qed.

Lemma Contains_iff (s sub : string) :
  Contains s sub = true <-> exists a b, s = (a ++ sub ++ b)%string.
Proof.
  split.
  - induction s as [|x s IH]; cbn [Contains]; intros H;
      apply orb_prop in H as [H|H]; try discriminate.
    + apply HasPrefix_iff in H as [r Hr]. now exists EmptyString, r.
    + apply HasPrefix_iff in H as [r Hr]. now exists EmptyString, r.
    + destruct (IH H) as (a & b & ->). now exists (String x a), b.
  - intros (a & b & ->). induction a as [|x a IH].
    + cbn [append]. destruct (sub ++ b)%string eqn:E; cbn [Contains];
        rewrite <- ?E, HasPrefix_app; reflexivity.
    + cbn [append Contains]. rewrite IH. apply orb_true_r.
Qed.

Lemma Contains_longer (s p q : string) :
  Contains s (p ++ q) = true -> Contains s q = true.
Proof.
  rewrite !Contains_iff. intros (a & b & ->).
  exists (a ++ p)%string, b. now rewrite !string_app_assoc.
Qed.

(** X13: a file name counts as a compose file exactly when it holds
    "compose" anywhere and ends in ".yml" or ".yaml"; the pattern
    "docker-compose" adds nothing to the pattern "compose". *)
Theorem isComposeFile_spec (filename : string) :
  config_rest.isComposeFile filename
  = Contains filename "compose"
    && (HasSuffix filename ".yml" || HasSuffix filename ".yaml").
Proof.
  unfold config_rest.isComposeFile, config_rest.ComposeFileNames,
    config_rest.ComposeFileExtensions.
  cbn [existsb]. rewrite !orb_false_r. f_equal.
  destruct (Contains filename "docker-compose") eqn:E; [|reflexivity].
  symmetry. exact (Contains_longer filename "docker-" "compose" E).
Qed.

Example isComposeFile_examples :
  config_rest.isComposeFile "docker-compose.yml" = true
  /\ config_rest.isComposeFile "compose.prod.yaml" = true
  /\ config_rest.isComposeFile "decompose-notes.yaml" = true
  /\ config_rest.isComposeFile "docker-compose.yml.bak" = false
  /\ config_rest.isComposeFile "services.yml" = false.
Proof. repeat split; reflexivity. Qed.

(* ================================================================== *)
(** ** pkg/validation                                                  *)
(* ================================================================== *)

Lemma nonNil_nil (errs : list (option validation_rest.error)) :
  validation_rest.nonNil errs = [] <-> Forall (fun e => e = None) errs.
Proof.
  induction errs as [|[e|] errs IH]; simpl.
  - split; constructor.
  - split; [discriminate|]. intros H. inversion H. discriminate.
  - rewrite IH. split; [now constructor|]. intros H. now inversion H.
Qed.

Lemma nonNil_app (l1 l2 : list (option validation_rest.error)) :
  validation_rest.nonNil (l1 ++ l2)
  = validation_rest.nonNil l1 ++ validation_rest.nonNil l2.
Proof.
  induction l1 as [|[e|] l1 IH]; simpl; [reflexivity| |exact IH].
  now rewrite IH.
Qed.

Lemma nonNil_map_Some (l : list validation_rest.error) :
  validation_rest.nonNil (map Some l) = l.
Proof. induction l as [|e l IH]; simpl; [reflexivity|now rewrite IH]. Qed.

(** Joining an error, even alone, makes another error. *)
Lemma joinError_fresh (err : validation_rest.error) :
  validation_rest.joinError [err] <> err.
Proof.
  intros H. apply (f_equal errorSize) in H. simpl in H. lia.
Qed.

(** X14: [CombineErrors] returns nil exactly when every error handed to it
    is nil.  When exactly one of them is not nil it returns that error
    itself, which is not the error [errors.Join] would make of the same
    arguments.  When two or more are not nil it returns what [errors.Join]
    returns: the joined error of those that are not nil, in their order.
    In every case the message of the error returned is the messages of
    the errors that are not nil, separated by newlines. *)
Theorem CombineErrors_spec (errs : list (option validation_rest.error)) :
  (validation_rest.CombineErrors errs = None
   <-> Forall (fun e => e = None) errs)
  /\ (forall before after err,
        errs = before ++ Some err :: after ->
        Forall (fun e => e = None) before ->
        Forall (fun e => e = None) after ->
        validation_rest.CombineErrors errs = Some err
        /\ validation_rest.errors_Join errs
           = Some (validation_rest.joinError [err])
        /\ validation_rest.CombineErrors errs
           <> validation_rest.errors_Join errs)
  /\ ((2 <= List.length (validation_rest.nonNil errs))%nat ->
      validation_rest.CombineErrors errs
      = Some (validation_rest.joinError (validation_rest.nonNil errs))
      /\ validation_rest.CombineErrors errs
         = validation_rest.errors_Join errs)
  /\ (forall combined,
        validation_rest.CombineErrors errs = Some combined ->
        validation_rest.Error combined
        = Join (map validation_rest.Error (validation_rest.nonNil errs))
               nl).
Proof.
  unfold validation_rest.CombineErrors, validation_rest.errors_Join.
  split; [|split; [|split]].
  - rewrite <- nonNil_nil.
    destruct (validation_rest.nonNil errs) as [|e [|e' l]];
      rewrite ?nonNil_map_Some; split; congruence.
  - intros before after err -> Hb Ha.
    apply nonNil_nil in Hb. apply nonNil_nil in Ha.
    rewrite nonNil_app. simpl. rewrite Hb, Ha. simpl.
    split; [reflexivity|]. split; [reflexivity|].
    intros [= H]. symmetry in H. exact (joinError_fresh err H).
  - intros Hlen.
    destruct (validation_rest.nonNil errs) as [|e [|e' l]];
      simpl in Hlen; try lia.
    rewrite nonNil_map_Some. split; reflexivity.
  - intros combined.
    destruct (validation_rest.nonNil errs) as [|e [|e' l]];
      rewrite ?nonNil_map_Some; intros [= <-]; reflexivity.
Qed.

Lemma CombineErrors_spec_witness :
  validation_rest.CombineErrors
    [None; Some (validation_rest.errorString "disk full"); None]
  = Some (validation_rest.errorString "disk full")
  /\ validation_rest.CombineErrors
       [None; Some (validation_rest.errorString "disk full"); None]
     <> validation_rest.errors_Join
          [None; Some (validation_rest.errorString "disk full"); None].
Proof.
  destruct (CombineErrors_spec
              [None; Some (validation_rest.errorString "disk full"); None])
    as (_ & H & _).
  assert (Hnil : Forall (fun e : option validation_rest.error => e = None)
                        [None]) by (repeat constructor).
  destruct (H [None] [None] (validation_rest.errorString "disk full")
              eq_refl Hnil Hnil) as (H1 & _ & H2).
  split; [exact H1|exact H2].
Defined.

Lemma Permutation_filter_compat {A : Type} (f : A -> bool) (l l' : list A) :
  Permutation l l' -> Permutation (filter f l) (filter f l').
Proof.
  induction 1 as [|x l l' _ IH|x y l|l l' l'' _ IH1 _ IH2]; simpl.
  - constructor.
  - destruct (f x); [now constructor|exact IH].
  - destruct (f x), (f y); try reflexivity. apply perm_swap.
  - now transitivity (filter f l').
Qed.

(** What [GetMissingVars] and [ValidateRequiredVars] come to. *)
Lemma GetMissingVars_missing
        (rangeOrder : list (string * string) -> list (string * string))
        (requiredVars : list (string * string)) :
  (forall m, Permutation m (rangeOrder m)) ->
  Permutation
    (validation.GetMissingVars rangeOrder requiredVars)
    (map fst (filter (fun kv => String.eqb (snd kv) EmptyString)
                     requiredVars))
  /\ (validation_rest.ValidateRequiredVars rangeOrder requiredVars = None
      <-> Forall (fun kv => snd kv <> EmptyString) requiredVars).
Proof.
  intros Hperm.
  assert (P : Permutation
                (validation.GetMissingVars rangeOrder requiredVars)
                (map fst (filter (fun kv => String.eqb (snd kv) EmptyString)
                                 requiredVars))).
  { unfold validation.GetMissingVars. apply Permutation_map.
    apply Permutation_filter_compat. symmetry. apply Hperm. }
  split; [exact P|].
  unfold validation_rest.ValidateRequiredVars.
  split.
  - intros H.
    destruct (validation.GetMissingVars rangeOrder requiredVars)
      as [|x l] eqn:E; [|discriminate].
    apply Permutation_nil in P. apply map_eq_nil in P.
    apply Forall_forall. intros kv Hin Hempty.
    assert (Hf : In kv (filter (fun kv => String.eqb (snd kv) EmptyString)
                               requiredVars)).
    { apply filter_In. split; [exact Hin|]. now apply String.eqb_eq. }
    rewrite P in Hf. destruct Hf.
  - intros H.
    assert (Hnil : filter (fun kv => String.eqb (snd kv) EmptyString)
                          requiredVars = []).
    { rewrite Forall_forall in H.
      destruct (filter _ requiredVars) as [|kv l] eqn:E; [reflexivity|].
      assert (Hin : In kv (kv :: l)) by now left.
      rewrite <- E in Hin. apply filter_In in Hin as [Hin Hempty].
      apply String.eqb_eq in Hempty. now destruct (H kv Hin). }
    rewrite Hnil in P. simpl in P. apply Permutation_sym in P.
    apply Permutation_nil in P. now rewrite P.
Qed.

(** X15: whatever the order in which the map is ranged over,
    [GetMissingVars] returns, in some order, exactly the names whose value
    is empty, and [ValidateRequiredVars] returns nil exactly when no value
    is empty. *)
Theorem GetMissingVars_spec
        (rangeOrder : list (string * string) -> list (string * string))
        (requiredVars : list (string * string)) :
  (forall m, Permutation m (rangeOrder m)) ->
  Permutation
    (validation.GetMissingVars rangeOrder requiredVars)
    (map fst (filter (fun kv => String.eqb (snd kv) EmptyString)
                     requiredVars))
  /\ (validation_rest.ValidateRequiredVars rangeOrder requiredVars = None
      <-> Forall (fun kv => snd kv <> EmptyString) requiredVars).
Proof. exact (GetMissingVars_missing rangeOrder requiredVars). Qed.

Lemma GetMissingVars_spec_witness :
  validation.GetMissingVars (@List.rev _)
    [("A", "x"); ("B", EmptyString); ("C", EmptyString)]%string
  = ["C"; "B"]%string
  /\ validation_rest.ValidateRequiredVars (@List.rev _)
       [("A", "x"); ("B", "y")]%string = None.
Proof.
  split; [reflexivity|].
  destruct (GetMissingVars_spec (@List.rev _) [("A", "x"); ("B", "y")]%string
              (fun m => Permutation_rev m)) as [_ H].
  apply H. repeat constructor; discriminate.
Defined.

(** X16: with [CreateMR] set, [ValidateGitLab] returns nil exactly when
    none of the four credentials is empty and [ValidateURL] accepts the
    repository address, whatever the order of the map. *)
Theorem ValidateGitLab_with_CreateMR
        (rangeOrder : list (string * string) -> list (string * string))
        (url_Parse : string -> string + (string * string))
        (c : config.Config) :
  (forall m, Permutation m (rangeOrder m)) ->
  config.CreateMR c = true ->
  (config.ValidateGitLab rangeOrder url_Parse c = None
   <-> config.GitLabUser c <> EmptyString
       /\ config.GitLabToken c <> EmptyString
       /\ config.GitLabRepo c <> EmptyString
       /\ config.GitLabEmail c <> EmptyString
       /\ validation.ValidateURL url_Parse (config.GitLabRepo c) = None).
Proof.
  intros Hperm Hmr.
  pose proof (GetMissingVars_missing rangeOrder (config.requiredVars c)
                Hperm)
    as [_ Hreq].
  unfold validation_rest.ValidateRequiredVars in Hreq.
  unfold config.ValidateGitLab. rewrite Hmr.
  assert (Hall : Forall (fun kv => snd kv <> EmptyString)
                        (config.requiredVars c)
                 <-> config.GitLabUser c <> EmptyString
                     /\ config.GitLabToken c <> EmptyString
                     /\ config.GitLabRepo c <> EmptyString
                     /\ config.GitLabEmail c <> EmptyString).
  { unfold config.requiredVars. split.
    - intros H. inversion H as [|? ? H1 H']; subst.
      inversion H' as [|? ? H2 H'']; subst.
      inversion H'' as [|? ? H3 H''']; subst.
      inversion H''' as [|? ? H4 _]; subst. auto.
    - intros (H1 & H2 & H3 & H4). repeat constructor; assumption. }
  destruct (0 <? List.length
                   (validation.GetMissingVars rangeOrder
                      (config.requiredVars c)))%nat.
  - split.
    + destruct (validation.ValidateURL url_Parse (config.GitLabRepo c));
        discriminate.
    + intros (H1 & H2 & H3 & H4 & _).
      assert (HF : Forall (fun kv => snd kv <> EmptyString)
                          (config.requiredVars c)) by (apply Hall; auto).
      apply Hreq in HF. discriminate.
  - assert (HF : Forall (fun kv => snd kv <> EmptyString)
                        (config.requiredVars c)) by now apply Hreq.
    apply Hall in HF. destruct HF as (H1 & H2 & H3 & H4).
    destruct (validation.ValidateURL url_Parse (config.GitLabRepo c));
      simpl; split; try discriminate; auto.
    intros (_ & _ & _ & _ & H). discriminate.
Qed.

Lemma ValidateGitLab_with_CreateMR_witness :
  config.ValidateGitLab (fun m => m)
    (fun _ => inr ("https", "gitlab.com")%string) scenarioConfig = None.
Proof.
  apply (ValidateGitLab_with_CreateMR (fun m => m)
           (fun _ => inr ("https", "gitlab.com")%string) scenarioConfig).
  - intros m. reflexivity.
  - reflexivity.
  - repeat split; try discriminate.
Defined.

(* ================================================================== *)
(** ** More on the merge-request workflows                             *)
(* ================================================================== *)

Section WorkflowAccounting.
Variable World : Type.
Variable G : cmd.Gateways World.
Variable cfg : config.Config.





Lemma ReplaceAll_absent (s old new : string) :
  Contains s old = false -> ReplaceAll s old new = s.
Proof.
  unfold ReplaceAll. destruct old as [|b old].
  { destruct s; discriminate. }
  induction s as [|a s IH]; [reflexivity|].
  cbn [Contains replaceFrom]. intros H.
  apply orb_false_elim in H as [Hp Hc]. rewrite Hp. now rewrite (IH Hc).
Qed.

(** X19: [updateFileContent] does not notice a file without the old
    image: when the text read does not hold the old image reference, the
    very same text is written back, and the only errors it can report are
    those of reading and writing. *)
Theorem updateFileContent_absent (u : scan.UpdatedImage)
        (st : cmd.state World) (content : string) (w1 : World) :
  cmd.ReadFile G (scan.FilePath u) (cmd.world st) = (inr content, w1) ->
  Contains content (scan.OldImage u) = false ->
  scan.updateFileContent World G u st
  = (let (e, w2) := cmd.WriteFile G (scan.FilePath u) content w1 in
     (match e with
      | Some err => Some ("failed to write file: " ++ err)%string
      | None => None
      end,
      {| cmd.world := w2; cmd.log := cmd.log st |})).
Proof.
  intros Hread Habsent.
  unfold scan.updateFileContent, cmd.bind, cmd.lift, cmd.ret.
  rewrite Hread, (ReplaceAll_absent _ _ _ Habsent). cbn [cmd.world cmd.log].
  destruct (cmd.WriteFile G (scan.FilePath u) content w1) as [[err|] w2];
    reflexivity.
Qed.

End WorkflowAccounting.





Lemma updateFileContent_absent_witness :
  scan.updateFileContent unit scenarioGateways
    (scanUpdate "db" "15.0.0" "16.2.0") emptyLog
  = (None, emptyLog).
Proof.
  apply (updateFileContent_absent unit scenarioGateways
           (scanUpdate "db" "15.0.0" "16.2.0") emptyLog
           "image: postgres:16.1.0" tt); reflexivity.
Defined.

(* ================================================================== *)
(** ** More on branch names                                            *)
(* ================================================================== *)

Lemma map_bytes_length (f : ascii -> ascii) (s : string) :
  String.length (map_bytes f s) = String.length s.
Proof. induction s; simpl; congruence. Qed.

Lemma map_bytes_avoids (f : ascii -> ascii) (c : ascii) (s : string) :
  (forall a, Ascii.eqb (f a) c = false) ->
  contains_byte c (map_bytes f s) = false.
Proof.
  intros H. unfold contains_byte. apply negb_false_iff.
  induction s as [|a s IH]; simpl; [reflexivity|].
  now rewrite H, IH.
Qed.

Lemma sanitizeByte_avoids (c : ascii) :
  (c = "/" \/ c = ":" \/ c = ".")%char ->
  forall a, Ascii.eqb (sanitizeByte a) c = false.
Proof.
  intros Hc a. unfold sanitizeByte.
  destruct (Ascii.eqb_spec a "/") as [Ha | H1]; simpl.
  { destruct Hc as [Hc | [Hc | Hc]]; subst c; reflexivity. }
  destruct (Ascii.eqb_spec a ":") as [Ha | H2]; simpl.
  { destruct Hc as [Hc | [Hc | Hc]]; subst c; reflexivity. }
  destruct (Ascii.eqb_spec a ".") as [Ha | H3]; simpl.
  { destruct Hc as [Hc | [Hc | Hc]]; subst c; reflexivity. }
  apply Ascii.eqb_neq. destruct Hc as [Hc | [Hc | Hc]]; subst c; assumption.
Qed.

(** X20: [sanitizeBranchName] keeps the length of the name, leaves no
    '/', ':' or '.' in it, and changes nothing when applied again. *)
Theorem sanitizeBranchName_clean (name : string) :
  String.length (scan.sanitizeBranchName name) = String.length name
  /\ contains_byte "/" (scan.sanitizeBranchName name) = false
  /\ contains_byte ":" (scan.sanitizeBranchName name) = false
  /\ contains_byte "." (scan.sanitizeBranchName name) = false
  /\ scan.sanitizeBranchName (scan.sanitizeBranchName name)
     = scan.sanitizeBranchName name.
Proof.
  rewrite !sanitizeBranchName_spec. repeat split.
  - apply map_bytes_length.
  - apply map_bytes_avoids, sanitizeByte_avoids; auto.
  - apply map_bytes_avoids, sanitizeByte_avoids; auto.
  - apply map_bytes_avoids, sanitizeByte_avoids; auto.
  - rewrite map_bytes_compose. apply map_bytes_ext. intros a.
    assert (Hfix : sanitizeByte "-" = "-"%char) by reflexivity.
    assert (Hcases : sanitizeByte a = "-"%char \/ sanitizeByte a = a).
    { unfold sanitizeByte.
      destruct (Ascii.eqb a "/" || Ascii.eqb a ":" || Ascii.eqb a ".");
        [left | right]; reflexivity. }
    destruct Hcases as [E | E]; rewrite E; [exact Hfix | exact E].
Qed.

(* ================================================================== *)
(** ** More on the scan command: checkImageForUpdates                  *)
(* ================================================================== *)

Section ScanCheck.
Variable semverText : string -> string.
Variable fetchText : fetchError -> string.
Variable World : Type.
Variable CoerceNewVersion : bool.
Context {Sorter : sort.Slice}.

Lemma Contains_app_l (p s : string) : Contains (p ++ s) p = true.
Proof. apply Contains_iff. now exists EmptyString, s. Qed.

(** X21: an image reference without a tag, or with a tag that does not end
    in a dotted triplet of numbers, is skipped: [checkImageForUpdates]
    returns neither an update nor an error, whatever the registry would
    answer and however many pages it may fetch. *)
Theorem checkImageForUpdates_skips
        (serviceName imageName filePath : string)
        (dockerClient : Client) (fuel : nat) (st : cmd.state World) :
  parseImageString imageName = inl (ErrNoTagFound imageName)
  \/ (exists repo tag,
        parseImageString imageName = inr (repo, tag)
        /\ extractVersionFromTag tag = inl (ErrNotSemverLike tag)) ->
  fst (scan_check.checkImageForUpdates semverText fetchText World
         CoerceNewVersion serviceName imageName filePath dockerClient
         fuel st)
  = Some (inr None).
Proof.
  intros H.
  assert (E : exists err,
             CheckImage CoerceNewVersion imageName dockerClient fuel
             = Some (inl err)
             /\ (Contains (scan_check.Error semverText fetchText err)
                          "no tag found"
                 || Contains (scan_check.Error semverText fetchText err)
                             "tag not semver-like") = true).
  { unfold CheckImage.
    destruct H as [Hp | (repo & tag & Hp & Ht)]; rewrite Hp.
    - eexists. split; [reflexivity|].
      cbn [scan_check.Error].
      apply orb_true_intro. left.
      exact (Contains_app_l "no tag found" (" in image: " ++ imageName)).
    - rewrite Ht. eexists. split; [reflexivity|].
      cbn [scan_check.Error].
      apply orb_true_intro. right.
      exact (Contains_app_l "tag not semver-like" (": " ++ tag)). }
  destruct E as (err & Ec & Hskip).
  unfold scan_check.checkImageForUpdates, cmd.PrintInfo, cmd.PrintVerbose,
    cmd.bind, cmd.ret, cmd.logf.
  cbv beta. rewrite Ec, Hskip. reflexivity.
Qed.

(** X22: an update returned by [checkImageForUpdates] is a real change.
    It carries the service and the file it was asked about; its old image
    is the image given, which is the repository, a colon and the old tag;
    its new image is the same repository with the new tag; the new tag is
    not the old one, so the new image is not the old image; and
    [CheckImage] reported an update for that image. *)
Theorem checkImageForUpdates_update
        (serviceName imageName filePath : string)
        (dockerClient : Client) (fuel : nat) (st : cmd.state World)
        (u : scan.UpdatedImage) :
  fst (scan_check.checkImageForUpdates semverText fetchText World
         CoerceNewVersion serviceName imageName filePath dockerClient
         fuel st)
  = Some (inr (Some u)) ->
  scan.ServiceName u = serviceName
  /\ scan.FilePath u = filePath
  /\ scan.OldImage u = imageName
  /\ imageName = (scan.Repository u ++ ":" ++ scan.OldTag u)%string
  /\ scan.NewImage u = (scan.Repository u ++ ":" ++ scan.NewTag u)%string
  /\ scan.NewTag u <> scan.OldTag u
  /\ scan.NewImage u <> scan.OldImage u
  /\ exists info,
       CheckImage CoerceNewVersion imageName dockerClient fuel
       = Some (inr info)
       /\ HasUpdate info = true
       /\ Tag info = scan.OldTag u /\ LatestTag info = scan.NewTag u.
Proof.
  unfold scan_check.checkImageForUpdates, cmd.PrintInfo, cmd.PrintVerbose,
    cmd.bind, cmd.ret, cmd.logf.
  cbv beta.
  destruct (CheckImage CoerceNewVersion imageName dockerClient fuel)
    as [[err | info] |] eqn:Ec; cbn [fst]; try discriminate.
  - destruct (Contains _ _ || Contains _ _); cbn [fst]; discriminate.
  - destruct (LatestVersion info) eqn:El; cbn [fst]; try discriminate.
    destruct (HasUpdate info) eqn:Eu; cbn [negb fst]; try discriminate.
    intros [= <-].
    cbn [scan.ServiceName scan.FilePath scan.OldImage scan.NewImage
         scan.Repository scan.OldTag scan.NewTag].
    destruct (CheckImage_invariants CoerceNewVersion _ _ _ _ Ec)
      as (Himg & _ & _ & _ & _ & Hne).
    specialize (Hne Eu).
    repeat split; auto.
    + intros Heq. rewrite Himg in Heq at 1.
      apply Hne. clear - Heq.
      induction (Repository info) as [|a r IH]; cbn [append] in Heq.
      * now injection Heq.
      * injection Heq as Heq. auto.
    + exists info. auto.
Qed.

End ScanCheck.

Lemma checkImageForUpdates_skips_witness :
  fst (scan_check.checkImageForUpdates scenarioSemverText
         scenarioFetchText unit true "web" "nginx:latest"
         "docker-compose.yml" (NewClient scenarioARegistry) 1 emptyLog)
  = Some (inr None).
Proof.
  apply (checkImageForUpdates_skips scenarioSemverText scenarioFetchText
           unit true "web" "nginx:latest" "docker-compose.yml"
           (NewClient scenarioARegistry) 1 emptyLog).
  right. exists "nginx"%string, "latest"%string.
  split; reflexivity.
Defined.

Lemma checkImageForUpdates_update_witness :
  exists u,
    fst (scan_check.checkImageForUpdates scenarioSemverText
           scenarioFetchText unit true "web" "nginx:apache-2.34.0"
           "docker-compose.yml" (NewClient scenarioARegistry) 1 emptyLog)
    = Some (inr (Some u))
    /\ scan.NewImage u = "nginx:apache-2.35.0"%string
    /\ scan.NewImage u <> scan.OldImage u.
Proof.
  eassert (E : fst (scan_check.checkImageForUpdates scenarioSemverText
                 scenarioFetchText unit true "web" "nginx:apache-2.34.0"
                 "docker-compose.yml" (NewClient scenarioARegistry) 1
                 emptyLog) = Some (inr (Some _)))
    by (vm_compute; reflexivity).
  destruct (checkImageForUpdates_update scenarioSemverText
              scenarioFetchText unit true _ _ _ _ _ _ _ E)
    as (_ & _ & _ & _ & _ & _ & Hne & _).
  eexists. split; [exact E|]. split; [reflexivity|exact Hne].
Defined.
